(** * dipy.workflows.vis_registeration: the overlay, mosaic and animation pipeline

  A shallow embedding of [VisualizeRegisteredImage] (src/dipy/workflows/
  vis_registeration.py) and the properties of it that the specification
  states.

  Conventions of the embedding.
  - Python integers are [Z]; [%] and [//] are [Z.modulo] and [Z.div] (both
    floor, as in Python).
  - A numpy array is its shape and its C-ordered flat data ([ndarray]).
  - Floating point is idealised: a finite float is an exact rational [Q],
    next to the IEEE specials NaN and the two infinities ([fl]); rounding
    of finite results is not modelled. [np.sqrt] is the rational square root
    rounded down on a fixed binary grid.
  - A [uint8] entry is a [Z]; storing a float into a [uint8] array truncates
    toward zero and wraps modulo 256.
  - A Python exception is a value of [exn]; fallible code returns [result].
  - Calls into the renderer, the GIF writer and the logger are recorded as
    [event]s of a trace, in call order. *)

From Stdlib Require Import ZArith QArith Qminmax Qround Lia Lqa.
From stdpp Require Import gmap strings list.
From Equations Require Import Equations.
Close Scope Q_scope.
Local Open Scope Z_scope.

(** ** Python: exceptions and results *)

Module Py.

Inductive exn : Type :=
| ValueError (msg : string)
| NameError (name : string)
| UnboundLocalError (name : string)
| TypeError
| IndexError.

Inductive result (A : Type) : Type :=
| Ok (a : A)
| Raise (e : exn).
Global Arguments Ok {A} a.
Global Arguments Raise {A} e.

Global Instance result_ret : MRet result := λ A a, Ok a.
Global Instance result_bind : MBind result :=
  λ A B f m, match m with Ok a => f a | Raise e => Raise e end.

(** What a module-level name can be bound to: a number, or another object
    (a module, a class, a function), which supports no arithmetic. *)
Inductive pyval : Type :=
| PNum (q : Q)
| PObj.


(** [range(lo, hi)] *)
Definition range (lo hi : Z) : list Z :=
  (λ k, lo + Z.of_nat k) <$> seq 0 (Z.to_nat (hi - lo)).

End Py.
Import Py.

(** ** numpy: floats, arrays, reductions, interpolation *)

Module Np.

(** A float64 value: finite (exact), NaN, or an infinity ([Inf true] is
    negative). *)
Inductive fl : Type :=
| Fin (q : Q)
| NaN
| Inf (neg : bool).

Definition Qneg_b (q : Q) : bool := negb (Qle_bool 0 q).
Definition Qzero_b (q : Q) : bool := Qeq_bool q 0.

Definition fneg (a : fl) : fl :=
  match a with
  | Fin q => Fin (- q)
  | NaN => NaN
  | Inf s => Inf (negb s)
  end.

Definition fadd (a b : fl) : fl :=
  match a, b with
  | NaN, _ | _, NaN => NaN
  | Fin x, Fin y => Fin (Qred (x + y))
  | Inf s, Fin _ | Fin _, Inf s => Inf s
  | Inf s, Inf t => if Bool.eqb s t then Inf s else NaN
  end.

Definition fsub (a b : fl) : fl := fadd a (fneg b).

Definition fmul (a b : fl) : fl :=
  match a, b with
  | NaN, _ | _, NaN => NaN
  | Fin x, Fin y => Fin (Qred (x * y))
  | Inf s, Fin y | Fin y, Inf s =>
      if Qzero_b y then NaN else Inf (xorb s (Qneg_b y))
  | Inf s, Inf t => Inf (xorb s t)
  end.

(** numpy's true division: a zero divisor gives NaN or an infinity (with a
    RuntimeWarning), never an exception. *)
Definition fdiv (a b : fl) : fl :=
  match a, b with
  | NaN, _ | _, NaN => NaN
  | Fin x, Fin y =>
      if Qzero_b y then (if Qzero_b x then NaN else Inf (Qneg_b x))
      else Fin (Qred (x / y))
  | Fin _, Inf _ => Fin 0
  | Inf s, Fin y => Inf (xorb s (Qneg_b y))
  | Inf _, Inf _ => NaN
  end.

(** Comparisons; every comparison with NaN is false. *)
Definition fltb (a b : fl) : bool :=
  match a, b with
  | NaN, _ | _, NaN => false
  | Fin x, Fin y => negb (Qle_bool y x)
  | Fin _, Inf s => negb s
  | Inf s, Fin _ => s
  | Inf s, Inf t => s && negb t
  end.

Definition fleb (a b : fl) : bool :=
  match a, b with
  | NaN, _ | _, NaN => false
  | Fin x, Fin y => Qle_bool x y
  | Fin _, Inf s => negb s
  | Inf s, Fin _ => s
  | Inf s, Inf t => s || negb t
  end.

(** Truncation toward zero. *)
Definition Qtrunc (q : Q) : Z := if Qle_bool 0 q then Qfloor q else Qceiling q.

(** Storing a float into a [uint8] array (a C cast): truncation, modulo 256.
    The cast of a non-finite value is left to the platform by C; it is 0 on
    the usual ones. *)
Definition cast_uint8 (a : fl) : Z :=
  match a with
  | Fin q => Qtrunc q mod 256
  | NaN | Inf _ => 0
  end.

(** [np.sqrt] on a finite non-negative value, rounded down to a multiple of
    2^-52 over the denominator. *)
Definition sqrt_bits : Z := 52.
Definition Qsqrt (q : Q) : Q :=
  let n := Qnum q in
  let d := Z.pos (Qden q) in
  Qred (Qmake (Z.sqrt (n * d * 2 ^ (2 * sqrt_bits)))
              (Z.to_pos (d * 2 ^ sqrt_bits))).

Definition fsqrt (a : fl) : fl :=
  match a with
  | Fin q => if Qneg_b q then NaN else Fin (Qsqrt q)
  | NaN => NaN
  | Inf s => if s then NaN else Inf false
  end.

(** An array: shape and C-ordered flat data. *)
Record ndarray (A : Type) : Type := NdArray { shape : list nat; data : list A }.
Global Arguments NdArray {A} shape data.
Global Arguments shape {A} _.
Global Arguments data {A} _.

Definition size_of (sh : list nat) : nat := foldr Nat.mul 1%nat sh.

(** The invariant of an array: as many entries as the shape says. *)
Definition wf {A} (a : ndarray A) : Prop := length (data a) = size_of (shape a).

Definition nd_map {A B} (f : A → B) (a : ndarray A) : ndarray B :=
  NdArray (shape a) (f <$> data a).

(** [np.zeros(shape, dtype=np.uint8)] *)
Definition zeros (sh : list nat) : ndarray Z := NdArray sh (replicate (size_of sh) 0).

(** [a.min()] and [a.max()]: a ValueError on an empty array. *)
Definition zero_size (op : string) : exn :=
  ValueError ("zero-size array to reduction operation " +:+ op +:+ " which has no identity").

Definition np_min (d : list Q) : result Q :=
  match d with
  | [] => Raise (zero_size "minimum")
  | x :: xs => Ok (foldl Qmin x xs)
  end.

Definition np_max (d : list Q) : result Q :=
  match d with
  | [] => Raise (zero_size "maximum")
  | x :: xs => Ok (foldl Qmax x xs)
  end.

(** [a[..., c]] on flat data whose last axis has length [C]: entry [k] of the
    result is the flat entry [k * C + c]. *)
Definition channel {A} (C c : nat) (d : list A) : list A :=
  omap (λ k, d !! (k * C + c)%nat) (seq 0 (length d `div` C)).

Definition get_channel {A} (c : nat) (a : ndarray A) : result (ndarray A) :=
  match last (shape a) with
  | None => Raise IndexError
  | Some C =>
      if (c <? C)%nat
      then Ok (NdArray (removelast (shape a)) (channel C c (data a)))
      else Raise IndexError
  end.

(** [a[..., c] = vals], [vals] already of the shape of [a[..., c]]: the flat
    entry [i] lies in channel [i mod C] of the element [i / C]. *)
Definition set_channel {A} (C c : nat) (vals : list A) (d : list A) : list A :=
  imap (λ i x, if (i `mod` C =? c)%nat then default x (vals !! (i `div` C)%nat) else x) d.

(** Broadcasting the data of an array of shape [src] to the shape [tgt] of
    the same number of axes: an axis of length 1 is repeated. *)
Fixpoint chunks {A} (n : nat) (k : nat) (d : list A) : list (list A) :=
  match n with
  | O => []
  | S n' => take k d :: chunks n' k (drop k d)
  end.

Fixpoint broadcast_axes {A} (tgt src : list nat) (d : list A) : option (list A) :=
  match tgt, src with
  | [], [] => Some d
  | t :: tgt', s :: src' =>
      if (s =? t)%nat then
        @concat A <$> mapM (broadcast_axes tgt' src') (chunks s (size_of src') d)
      else if (s =? 1)%nat then
        (λ r, concat (replicate t r)) <$> broadcast_axes tgt' src' d
      else None
  | _, _ => None
  end.

(** The shapes as numpy aligns them for an assignment: a shorter source is
    padded with leading 1s; unit axes are stripped from the left of a longer
    one. *)
Fixpoint strip_ones (n : nat) (src : list nat) : list nat :=
  match n, src with
  | S n', 1%nat :: src' => strip_ones n' src'
  | _, _ => src
  end.

Definition align (tgt src : list nat) : list nat :=
  if (length src <=? length tgt)%nat
  then replicate (length tgt - length src) 1%nat ++ src
  else strip_ones (length src - length tgt) src.

Definition broadcast_error : exn :=
  ValueError "could not broadcast input array".

Definition broadcast_to {A} (tgt : list nat) (a : ndarray A) : result (list A) :=
  match broadcast_axes tgt (align tgt (shape a)) (data a) with
  | Some d => Ok d
  | None => Raise broadcast_error
  end.

(** [np.interp(x, (xp0, xp1), (fp0, fp1))] at one point: the right value
    above the last knot, the left value below the first, the last value at
    the last knot (also when the two knots coincide), and the line through
    the two knots in between. *)
Definition np_interp (x : Q) (xp : fl * fl) (fp : Q * Q) : fl :=
  let '(xp0, xp1) := xp in
  let '(fp0, fp1) := fp in
  if fltb xp1 (Fin x) then Fin fp1
  else if fltb (Fin x) xp0 then Fin fp0
  else if fleb xp1 (Fin x) then Fin fp1
  else
    let slope := fdiv (Fin (fp1 - fp0)) (fsub xp1 xp0) in
    fadd (fmul slope (fsub (Fin x) xp0)) (Fin fp0).

(** Sum, mean and standard deviation of [uint8] data, as floats: NaN (and a
    RuntimeWarning) on no data. *)
Definition Qsum (d : list Q) : Q := foldl (λ acc x, Qred (acc + x)) 0%Q d.

Definition Qmean (d : list Q) : Q :=
  Qred (Qsum d / inject_Z (Z.of_nat (length d))).

Definition mean (d : list Z) : fl :=
  match d with
  | [] => NaN
  | _ => Fin (Qmean (inject_Z <$> d))
  end.

Definition std (d : list Z) : fl :=
  match d with
  | [] => NaN
  | _ =>
      let xs := inject_Z <$> d in
      let m := Qmean xs in
      fsqrt (Fin (Qmean ((λ x, Qred ((x - m) * (x - m))) <$> xs)))
  end.

End Np.
Import Np.

(** ** dipy.viz and dipy.workflows.core: the collaborators *)

Module Viz.

(** A 4x4 affine transform. *)
Definition affine : Type := list (list Q).

(** A raster or a slice handed to a collaborator, with its dtype. *)
Inductive image : Type :=
| U8 (a : ndarray Z)
| F64 (a : ndarray fl).

(** The calls made on the renderer, the actors, the GIF writer and the
    logger. *)
Inductive event : Type :=
| NewRenderer
| Background (r g b : Q)
| Slicer (im : image) (aff : affine) (value_range : fl * fl)
| Projection (kind : string)
| CopyActor
| Display (z : Z)
| SetPosition (x y z : Q)
| SetInterpolate (b : bool)
| Add
| ResetCamera
| Zoom (factor : Q)
| RecordScene (fname : string) (width height : Z)
| Snapshot
| WriteGif (frames : list image) (fname : string) (fps : Z)
| LogInfo (msg : string).

(** A computation that calls collaborators: it extends the trace of the
    calls made so far and returns or raises. *)
Definition M (A : Type) : Type := list event → list event * result A.

Global Instance M_ret : MRet M := λ A a t, (t, Ok a).
Global Instance M_bind : MBind M :=
  λ A B f m t,
    match m t with
    | (t', Ok a) => f a t'
    | (t', Raise e) => (t', Raise e)
    end.

Definition call (e : event) : M unit := λ t, (t ++ [e], Ok ()).
Definition lift {A} (r : result A) : M A := λ t, (t, r).

(** Modelled from the spec: [overlay_slices] of dipy.viz.regtools is not among
    the sources. Per the spec a slice is "a 2-D color image (H×W×3) extracted
    from the overlay at a fixed index along one of the three axes", H and W
    being the other two spatial dimensions, red from the first volume and
    green from the second. [plane_index] gives the flat index in an (X, Y, Z)
    volume of the entry (h, w) of the slice at [i] along [axis]. *)
Definition plane_index (ny nz : nat) (axis i h w : nat) : nat :=
  match axis with
  | 0 => (i * ny + h) * nz + w
  | 1 => (h * ny + i) * nz + w
  | _ => (h * ny + w) * nz + i
  end%nat.

(** The length of the sliced axis, then H and W. *)
Definition plane_dims (nx ny nz : nat) (axis : nat) : nat * nat * nat :=
  match axis with
  | 0%nat => (nx, ny, nz)
  | 1%nat => (ny, nx, nz)
  | _ => (nz, nx, ny)
  end.

Definition overlay_slices {A} (zero : A) (L R : ndarray A)
    (slice_type : nat) (slice_index : Z) : result (ndarray A) :=
  match shape L with
  | [nx; ny; nz] =>
      let '(N, H, W) := plane_dims nx ny nz slice_type in
      if (0 <=? slice_index) && (slice_index <? Z.of_nat N) && (slice_type <? 3)%nat then
        let i := Z.to_nat slice_index in
        let pixel (p : nat) : option (list A) :=
          let k := plane_index ny nz slice_type i (p `div` W) (p `mod` W) in
          l ← data L !! k; r ← data R !! k; Some [l; r; zero] in
        match mapM pixel (seq 0 (H * W)) with
        | Some px => Ok (NdArray [H; W; 3%nat] (concat px))
        | None => Raise IndexError
        end
      else Raise IndexError
  | _ => Raise IndexError
  end.

End Viz.
Import Viz.

(** ** The workflow class *)

Module VisualizeRegisteredImage.

(** The names bound at module level by the imports and the class statement
    (lines 1-14); nothing else is ever bound there. *)
Definition module_globals : gmap string pyval :=
  list_to_map
    ((λ n, (n, PObj)) <$>
     ["division"; "print_function"; "absolute_import"; "Workflow"; "logging";
      "np"; "nib"; "write_gif"; "load_affine_matrix"; "overlay_slices";
      "window"; "actor"; "snapshot"; "VisualizeRegisteredImage"]).

(** Lines 31-34: [255 * ((img - img.min()) / (img.max() - img.min()))], at
    the entry [x] and for the whole array. *)
Definition rescale_entry (mn mx x : Q) : fl :=
  fmul (Fin 255) (fdiv (fsub (Fin x) (Fin mn)) (fsub (Fin mx) (Fin mn))).

Definition rescale (img : ndarray Q) : result (ndarray fl) :=
  mn ← np_min (data img);
  mx ← np_max (data img);
  Ok (nd_map (rescale_entry mn mx) img).

(** [a[..., c] = vals] into a [uint8] array whose last axis has length [C]. *)
Definition assign_channel (C c : nat) (vals : ndarray fl) (a : ndarray Z)
    : result (ndarray Z) :=
  v ← broadcast_to (removelast (shape a)) (nd_map cast_uint8 vals);
  Ok (NdArray (shape a) (set_channel C c v (data a))).

(** [overlay[overlay > 0]] *)
Definition positive_entries (overlay : ndarray Z) : list Z :=
  filter (λ v, 0 < v) (data overlay).

Definition process_image_data (static_img moved_img : ndarray Q) (type_vis : string)
    : result (ndarray Z * (fl * fl)) :=
  static_img ← rescale static_img;
  moved_img ← rescale moved_img;
  let overlay := zeros (shape static_img ++ [3%nat]) in
  overlay ← assign_channel 3 0 static_img overlay;
  overlay ← assign_channel 3 1 moved_img overlay;
  let mean := mean (positive_entries overlay) in
  let std := std (positive_entries overlay) in
  if String.eqb type_vis "mosaic" then
    Ok (overlay, (fsub mean (fmul (Fin 0.5) std), fadd mean (fmul (Fin 1.5) std)))
  else if String.eqb type_vis "anim" then
    Ok (overlay, (fsub mean (fmul (Fin 0.5) std), fadd mean (fmul (Fin 1.5) std)))
  else Raise (UnboundLocalError "value_range").

(** Lines 61-64: [while True: if num_slices % 5 == 0: break; num_slices += 1]. *)
Equations? pad_to_five (num_slices : Z) : Z by wf (Z.to_nat ((- num_slices) mod 5)) lt :=
  pad_to_five n with Z.eq_dec (n mod 5) 0 => {
    | left _ := n ;
    | right _ := pad_to_five (n + 1) }.
Proof. Z.div_mod_to_equations. lia. Qed.

(** Lines 66-71: the [for] loop with its [break], on the state (rows, cols). *)
Fixpoint first_divisor (num_slices : Z) (candidates : list Z) (rows_cols : Z * Z) : Z * Z :=
  match candidates with
  | [] => rows_cols
  | i :: rest =>
      if num_slices mod i =? 0 then (i, num_slices / i)
      else first_divisor num_slices rest rows_cols
  end.

Definition get_row_cols (num_slices : Z) : Z * Z :=
  let num_slices := pad_to_five num_slices in
  first_divisor num_slices (range 5 num_slices) (0, 0).

(** [a, b, c = l] *)
Definition unpack3 {A} (l : list A) : result (A * A * A) :=
  match l with
  | [a; b; c] => Ok (a, b, c)
  | _ :: _ :: _ :: _ => Raise (ValueError "too many values to unpack (expected 3)")
  | _ => Raise (ValueError "not enough values to unpack (expected 3)")
  end.

(** [a, b, c, d = l] *)
Definition unpack4 {A} (l : list A) : result (A * A * A * A) :=
  match l with
  | [a; b; c; d] => Ok (a, b, c, d)
  | _ :: _ :: _ :: _ :: _ => Raise (ValueError "too many values to unpack (expected 4)")
  | _ => Raise (ValueError "not enough values to unpack (expected 4)")
  end.

(** [for i in indices: state = body i state] *)
Fixpoint for_each {S} (indices : list Z) (body : Z → S → M S) (s : S) : M S :=
  match indices with
  | [] => mret s
  | i :: rest => s' ← body i s; for_each rest body s'
  end.

Section Globals.

(** The module's global namespace when the method runs. *)
Variable globals : gmap string pyval.

Definition lookup_name (x : string) : result pyval :=
  match globals !! x with
  | Some v => Ok v
  | None => Raise (NameError x)
  end.

(** [v + n] for a number [n]: a [TypeError] when [v] is no number. *)
Definition py_add (v : pyval) (n : Q) : result Q :=
  match v with
  | PNum q => Ok (Qred (q + n))
  | PObj => Raise TypeError
  end.

(** Lines 105-107: the arguments of [SetPosition], evaluated left to right. *)
Definition position (border cols i j : Z) : result (Q * Q * Q) :=
  X ← lookup_name "X";
  xb ← py_add X (inject_Z border);
  let px := Qred (xb * inject_Z i) in
  Y ← lookup_name "Y";
  yb ← py_add Y (inject_Z border);
  let half := Qred (0.5 * inject_Z cols * yb) in
  Y ← lookup_name "Y";
  yb' ← py_add Y (inject_Z border);
  Ok (px, Qred (half - yb' * inject_Z j), 0%Q).

(** Lines 102-114: one row of the grid; returns [cnt] as the inner loop
    leaves it, by exhaustion or by [break]. *)
Fixpoint mosaic_row (num_slices border cols j : Z) (columns : list Z) (cnt : Z) : M Z :=
  match columns with
  | [] => mret cnt
  | i :: rest =>
      call CopyActor;;
      call (Display cnt);;
      '(x, y, z) ← lift (position border cols i j);
      call (SetPosition x y z);;
      call (SetInterpolate false);;
      call Add;;
      call ResetCamera;;
      call (Zoom 1.6);;
      let cnt := cnt + 1 in
      if cnt >? num_slices then mret cnt
      else mosaic_row num_slices border cols j rest cnt
  end.

(** Lines 101-116: the rows of the grid. *)
Fixpoint mosaic_grid (num_slices border cols : Z) (rows : list Z) (cnt : Z) : M Z :=
  match rows with
  | [] => mret cnt
  | j :: rest =>
      cnt ← mosaic_row num_slices border cols j (range 0 cols) cnt;
      if cnt >? num_slices then mret cnt
      else mosaic_grid num_slices border cols rest cnt
  end.

(** Modelled from the spec: the [shape] attribute of the actor that
    [actor.slicer] returns (dipy.viz.actor is not among the sources) is the
    shape of the data it was given: the mosaic "determines axial slice count
    from the overlay's third spatial dimension". *)
Definition slicer_shape (overlay : ndarray Z) : list nat := shape overlay.

Definition create_mosaic (static_img moved_img : ndarray Q) (aff : affine)
    (fname : string) : M unit :=
  '(overlay, value_range) ← lift (process_image_data static_img moved_img "mosaic");
  call NewRenderer;;
  call (Background 0.5 0.5 0.5);;
  call (Slicer (U8 overlay) aff value_range);;
  call (Projection "parallel");;
  let cnt := 0 in
  '(_, _, num_slices) ← lift (unpack3 (take 3 (slicer_shape overlay)));
  let num_slices := Z.of_nat num_slices in
  let '(rows, cols) := get_row_cols num_slices in
  let border := 5 in
  mosaic_grid num_slices border cols (range 0 rows) cnt;;
  call ResetCamera;;
  call (Zoom 1.6);;
  call (RecordScene fname 900 600).

End Globals.

(** Lines 135-138 and 142-145, for one channel [c]:
    [img[..., c] = np.interp(img[..., c], (img[..., c].min(), img[..., c].max()), fp)],
    stored into the [uint8] array [img]. *)
Definition interp_channel (c : nat) (fp : Q * Q) (img : ndarray Z) : result (ndarray Z) :=
  x ← get_channel c img;
  mn ← np_min (inject_Z <$> data x);
  mx ← np_max (inject_Z <$> data x);
  let y := nd_map (λ v, np_interp (inject_Z v) (Fin mn, Fin mx) fp) x in
  assign_channel (default 0%nat (last (shape img))) c y img.

(** [np.round(a, 0)] on an integer array leaves it as it is;
    [a.astype('uint8')] wraps its entries modulo 256. *)
Definition np_round (a : ndarray Z) : ndarray Z := a.

Definition astype_uint8 (a : ndarray Z) : ndarray Z :=
  nd_map (λ v, v mod 256) a.

(** The raster [img] is 8-bit (a snapshot of the renderer). *)
Definition adjust_color_range (img : ndarray Z) : result (ndarray Z) :=
  img ← interp_channel 0 (0, 15)%Q img;
  img ← interp_channel 1 (0, 15)%Q img;
  let img := astype_uint8 (np_round img) in
  img ← interp_channel 0 (0, 255)%Q img;
  img ← interp_channel 1 (0, 255)%Q img;
  Ok img.

(** Lines 177-187 and 221-231: [num_slices] and [slice_type] after the
    [if]/[elif] chain; [slice_type] stays unbound ([None] here) when no branch
    is taken. The selector is a string or Python's [None]. *)
Definition select_plane (sli_type : option string) (x y z : nat) : Z * option nat :=
  match sli_type with
  | Some s =>
      if String.eqb s "saggital" then (Z.of_nat x, Some 0%nat)
      else if String.eqb s "coronal" then (Z.of_nat y, Some 1%nat)
      else if String.eqb s "axial" then (Z.of_nat z, Some 2%nat)
      else (0, None)
  | None => (0, None)
  end.

(** Reading a local variable. *)
Definition local {A} (name : string) (v : option A) : result A :=
  match v with
  | Some a => Ok a
  | None => Raise (UnboundLocalError name)
  end.

(** Lines 175-176: [np.interp(overlay, xp=[value_range[0], value_range[1]], fp=[0, 255])]. *)
Definition stretch (value_range : fl * fl) (overlay : ndarray Z) : ndarray fl :=
  nd_map (λ v, np_interp (inject_Z v) value_range (0, 255)%Q) overlay.

Definition animate_overlap (static_img moved_img : ndarray Q)
    (sli_type : option string) (fname : string) : M unit :=
  '(overlay, value_range) ← lift (process_image_data static_img moved_img "anim");
  '(x, y, z, _) ← lift (unpack4 (shape overlay));
  let overlay := astype_uint8 overlay in
  let overlay := stretch value_range overlay in
  let '(num_slices, slice_type) := select_plane sli_type x y z in
  slices ← for_each (range 0 num_slices)
    (λ i slices,
       L ← lift (get_channel 0 overlay);
       R ← lift (get_channel 1 overlay);
       slice_type ← lift (local "slice_type" slice_type);
       temp_slice ← lift (overlay_slices (Fin 0) L R slice_type i);
       mret (slices ++ [F64 temp_slice]))
    [];
  call (WriteGif slices fname 10).

(** [np.rollaxis(a, 2, 4)] on a 4-D array: the third axis becomes the last. *)
Definition rollaxis_2_4 {A} (a : ndarray A) : result (ndarray A) :=
  match shape a with
  | [h; w; c; d] =>
      let src (i : nat) : nat :=
        ((i `div` (d * c)) * (c * d) + (i `mod` c) * d + (i `mod` (d * c)) `div` c)%nat in
      Ok (NdArray [h; w; d; c] (omap (λ i, data a !! src i) (seq 0 (length (data a)))))
  | _ => Raise (ValueError "axis out of bounds")
  end.

Section Environment.

(** The raster that [snapshot] reads back from the renderer, a function of the
    calls made on it so far. *)
Variable snapshot : list event → ndarray Z.

(** What [nibabel.load(f).get_data()] and [load_affine_matrix] read from the
    files. *)
Variable nib_load : string → ndarray Q.
Variable load_affine_matrix : string → affine.

(** The module's global namespace when [run] is called. *)
Variable globals : gmap string pyval.

Definition take_snapshot : M (ndarray Z) := λ t, (t ++ [Snapshot], Ok (snapshot t)).

(** Lines 238-250: one pass of the frame loop, for the slice index [i]. *)
Definition render_frame (overlay : ndarray Z) (slice_type : option nat)
    (aff : affine) (value_range : fl * fl) (i : Z) (slices : list image)
    : M (list image) :=
  L ← lift (get_channel 0 overlay);
  R ← lift (get_channel 1 overlay);
  slice_type ← lift (local "slice_type" slice_type);
  temp_slice ← lift (overlay_slices 0 L R slice_type i);
  let temp_slice := NdArray (shape temp_slice ++ [1%nat]) (data temp_slice) in
  let temp_slice := astype_uint8 (np_round temp_slice) in
  temp_slice ← lift (rollaxis_2_4 temp_slice);
  call (Slicer (U8 temp_slice) aff value_range);;
  call Add;;
  call ResetCamera;;
  call (Zoom 1.6);;
  snap ← take_snapshot;
  snap ← lift (adjust_color_range snap);
  mret (slices ++ [U8 snap]).

Definition animate_overlap_with_renderer (static_img moved_img : ndarray Q)
    (sli_type : option string) (fname : string) (aff : affine) : M unit :=
  '(overlay, value_range) ← lift (process_image_data static_img moved_img "anim");
  '(x, y, z, _) ← lift (unpack4 (shape overlay));
  let '(num_slices, slice_type) := select_plane sli_type x y z in
  (* [window.renderer(bg)] makes a renderer and sets its background *)
  call NewRenderer;;
  call (Background 0.5 0.5 0.5);;
  slices ← for_each (range 0 num_slices)
             (render_frame overlay slice_type aff value_range) [];
  call (WriteGif slices fname 10).

(** Lines 256-263. *)
Definition dimension_mismatch : exn :=
  ValueError "Dimension mismatch: The input images must have same number of dimensions.".

Definition check_dimensions (static moving : ndarray Q) : result unit :=
  if negb (length (shape static) =? length (shape moving))%nat
  then Raise dimension_mismatch
  else Ok ().

(** Lines 303-330: the loop body of [run] for one input triple. *)
Definition run_body (inputs : string * string * string)
    (show_mosaic : bool) (anim_slice_type : option string)
    (mosaic_file animate_file : string) : M unit :=
  let '(static_img, mov_img, affine_matrix_file) := inputs in
  let static := nib_load static_img in
  let moved_image := nib_load mov_img in
  let affine_matrix := load_affine_matrix affine_matrix_file in
  lift (check_dimensions static moved_image);;
  (if show_mosaic
   then create_mosaic globals static moved_image affine_matrix mosaic_file
   else mret ());;
  (match anim_slice_type with
   | Some _ =>
       animate_overlap_with_renderer static moved_image anim_slice_type
         animate_file affine_matrix
   | None => mret ()
   end);;
  if negb show_mosaic && negb (bool_decide (is_Some anim_slice_type))
  then call (LogInfo "No options supplied. Exiting.")
  else mret ().

(** [io_it]: the input triples that the workflow's iterator yields. *)
Definition run (io_it : list (string * string * string))
    (show_mosaic : bool) (anim_slice_type : option string) (out_dir : string)
    (mosaic_file animate_file : string) : M unit :=
  foldr (λ inputs rest,
           run_body inputs show_mosaic anim_slice_type mosaic_file animate_file;; rest)
        (mret ()) io_it.

End Environment.

End VisualizeRegisteredImage.
Import VisualizeRegisteredImage.

(** ** Reference descriptions used in the statements below *)

Module Reference.

(** The position that lines 105-107 compute for the grid cell (row [j], column
    [i]) when [X] and [Y] are the numbers [x] and [y] and the border is 5. *)
Definition cell_position (x y : Q) (cols i j : Z) : Q * Q * Q :=
  (Qred (Qred (x + inject_Z 5) * inject_Z i),
   Qred (Qred (0.5 * inject_Z cols * Qred (y + inject_Z 5))
         - Qred (y + inject_Z 5) * inject_Z j),
   0%Q).

(** The calls of one pass through the body of the grid loop, for the slice
    index [cnt] placed in row [j], column [i]. *)
Definition place_slice (x y : Q) (cols j cnt i : Z) : list event :=
  let '(px, py, pz) := cell_position x y cols i j in
  [CopyActor; Display cnt; SetPosition px py pz; SetInterpolate false;
   Add; ResetCamera; Zoom 1.6].

(** Row-major placement: the slice index [k] goes to row [k / cols], column
    [k mod cols]. *)
Definition place_row_major (x y : Q) (cols k : Z) : list event :=
  place_slice x y cols (k / cols) k (k mod cols).

(** The slice indices passed to [display], in call order. *)
Definition displayed (t : list event) : list Z :=
  omap (λ e, match e with Display z => Some z | _ => None end) t.

(** The value range as the formula of lines 42 and 44 gives it from the
    entries it is computed over. *)
Definition value_range_over (entries : list Z) : fl * fl :=
  (fsub (mean entries) (fmul (Fin 0.5) (std entries)),
   fadd (mean entries) (fmul (Fin 1.5) (std entries))).

(** The specification's selection, "voxels where any channel is nonzero": all
    three channel entries of every voxel that has a nonzero entry. *)
Definition nonzero_voxel_entries (overlay : ndarray Z) : list Z :=
  concat (filter (λ voxel, Exists (λ v, v ≠ 0) voxel)
            (chunks (length (data overlay) `div` 3) 3 (data overlay))).

(** The plane selectors the animation recognizes, with their axis. *)
Definition recognized (sli_type : string) (axis : nat) : Prop :=
  (sli_type = "saggital" ∧ axis = 0%nat) ∨
  (sli_type = "coronal" ∧ axis = 1%nat) ∨
  (sli_type = "axial" ∧ axis = 2%nat).

(** The images that the [Slicer] calls of a trace were given, in call order. *)
Definition sliced (t : list event) : list image :=
  omap (λ e, match e with Slicer im _ _ => Some im | _ => None end) t.

(** The values that [interp_channel] stores in a channel holding [vals]: each
    value interpolated between the channel's minimum and maximum, then cast. *)
Definition requantize (fp : Q * Q) (vals : list Z) : list Z :=
  match np_min (inject_Z <$> vals), np_max (inject_Z <$> vals) with
  | Ok mn, Ok mx =>
      (λ v, cast_uint8 (np_interp (inject_Z v) (Fin mn, Fin mx) fp)) <$> vals
  | _, _ => vals
  end.




(** The slice at index [i] as the rendered animation hands it to the slicer:
    a unit axis appended, then rolled in front of the channel axis, which
    makes an (H, W, 3) slice an (H, W, 1, 3) array of the same entries. *)
Definition rendered_slice_at (L R : ndarray Z) (axis H W : nat) (i : Z) : ndarray Z :=
  match overlay_slices 0 L R axis i with
  | Ok s => NdArray [H; W; 1; 3]%nat ((λ v, v mod 256) <$> data s)
  | Raise _ => NdArray [] []
  end.

(** The calls [create_mosaic] makes before the grid loop and after it. *)
Definition mosaic_setup (overlay : ndarray Z) (aff : affine) (value_range : fl * fl)
    : list event :=
  [NewRenderer; Background 0.5 0.5 0.5; Slicer (U8 overlay) aff value_range;
   Projection "parallel"].

Definition mosaic_capture (fname : string) : list event :=
  [ResetCamera; Zoom 1.6; RecordScene fname 900 600].

(** The files that a trace wrote. *)
Definition written (t : list event) : list string :=
  omap (λ e, match e with
             | RecordScene f _ _ => Some f
             | WriteGif _ f _ => Some f
             | _ => None
             end) t.

(** The overlay that lines 37-39 build from two volumes of one shape whose
    minima and maxima are [mn], [mx] and [mn'], [mx']. *)
Definition overlay_of (static_img moved_img : ndarray Q) (mn mx mn' mx' : Q) : ndarray Z :=
  NdArray (shape static_img ++ [3%nat])
    (set_channel 3 1 (cast_uint8 <$> (rescale_entry mn' mx' <$> data moved_img))
       (set_channel 3 0 (cast_uint8 <$> (rescale_entry mn mx <$> data static_img))
          (replicate (size_of (shape static_img ++ [3%nat])) 0))).



End Reference.
Import Reference.

(** ** Sample inputs *)

Module Samples.

(** A 1 x 1 x 7 volume: seven axial slices of one voxel. *)
Definition ramp7 : ndarray Q := NdArray [1; 1; 7]%nat [3; 4; 5; 6; 7; 8; 9]%Q.

(** Two voxels, distinct and equal. *)
Definition two_voxels : ndarray Q := NdArray [2; 1; 1]%nat [3; 7]%Q.
Definition constant_volume : ndarray Q := NdArray [2; 1; 1]%nat [7; 7]%Q.

(** The module's namespace with [X] and [Y] bound to numbers. *)
Definition globals_with_XY : gmap string pyval :=
  <["X" := PNum 10%Q]> (<["Y" := PNum 10%Q]> module_globals).

(** Volumes of shapes (10, 10, 10), (10, 10, 5) and (10, 10), and files that
    hold them. *)
Definition counting (n : nat) : list Q := (λ k, inject_Z (Z.of_nat k)) <$> seq 0 n.
Definition volume_10_10_10 : ndarray Q := NdArray [10; 10; 10]%nat (counting 1000).
Definition volume_10_10_5 : ndarray Q := NdArray [10; 10; 5]%nat (counting 500).
Definition image_10_10 : ndarray Q := NdArray [10; 10]%nat (counting 100).

Definition sample_load (file : string) : ndarray Q :=
  if String.eqb file "static.nii" then volume_10_10_10
  else if String.eqb file "moving.nii" then volume_10_10_5
  else image_10_10.

Definition sample_affine (file : string) : affine := [].
Definition blank_snapshot (t : list event) : ndarray Z :=
  NdArray [2; 2; 3]%nat (replicate 12 0).

(** A (4, 4, 6) volume. *)
Definition volume_4_4_6 : ndarray Q := NdArray [4; 4; 6]%nat (counting 96).


(** Files that all hold the two-voxel volume, and a batch whose second
    triple pairs a volume with an image. *)
Definition uniform_load (file : string) : ndarray Q := two_voxels.

Definition mixed_batch : list (string * string * string) :=
  [("static.nii", "static.nii", "affine.txt");
   ("static.nii", "image.nii", "affine.txt");
   ("static.nii", "static.nii", "affine.txt")].

(** An empty volume, and a volume with a unit axis. *)
Definition empty_volume : ndarray Q := NdArray [0; 4; 4]%nat [].
Definition column_2_1_1 : ndarray Q := NdArray [2; 1; 1]%nat [1; 2]%Q.
Definition volume_2_1_2 : ndarray Q := NdArray [2; 1; 2]%nat [3; 4; 5; 6]%Q.
Definition volume_2_1_3 : ndarray Q := NdArray [2; 1; 3]%nat [3; 4; 5; 6; 7; 8]%Q.

(** A 2 x 2 raster with a single channel. *)
Definition gray_raster : ndarray Z := NdArray [2; 2; 1]%nat [0; 10; 100; 255].

End Samples.
Import Samples.

(** * Properties *)

(** ** [range] *)

Lemma range_nil lo hi : hi <= lo → range lo hi = [].
Proof.
  intros H. unfold range. replace (Z.to_nat (hi - lo)) with 0%nat by lia. reflexivity.
Qed.

Lemma range_cons lo hi : lo < hi → range lo hi = lo :: range (lo + 1) hi.
Proof.
  intros H. unfold range.
  replace (Z.to_nat (hi - lo)) with (S (Z.to_nat (hi - (lo + 1)))) by lia.
  cbn [seq fmap list_fmap]. f_equal; [lia|].
  rewrite <- seq_shift, <- list_fmap_compose.
  apply list_fmap_ext. intros _ k _. simpl. lia.
Qed.

Lemma range_length lo hi : length (range lo hi) = Z.to_nat (hi - lo).
Proof. unfold range. by rewrite length_fmap, length_seq. Qed.

Lemma range_lookup lo hi (k : nat) :
  (Z.of_nat k < hi - lo) → range lo hi !! k = Some (lo + Z.of_nat k).
Proof.
  intros H. unfold range. rewrite list_lookup_fmap, lookup_seq_lt by lia. reflexivity.
Qed.

(** ** The row and column solver *)

Lemma pad_to_five_spec n :
  pad_to_five n mod 5 = 0 ∧ n <= pad_to_five n < n + 5.
Proof.
  funelim (pad_to_five n).
  - split; [assumption | lia].
  - destruct H as [H1 H2]. split; [assumption|].
    split; [lia|].
    destruct (Z.eq_dec (pad_to_five (n + 1)) (n + 5)) as [E|E]; [|lia].
    exfalso. rewrite E in H1.
    match goal with Hn : _ ≠ 0 |- _ => apply Hn end.
    Z.div_mod_to_equations. lia.
Qed.

Lemma get_row_cols_small n : 1 <= n <= 5 → get_row_cols n = (0, 0).
Proof.
  intros H. unfold get_row_cols.
  destruct (pad_to_five_spec n) as [H1 H2].
  assert (pad_to_five n = 5) as -> by (Z.div_mod_to_equations; lia).
  reflexivity.
Qed.

Lemma get_row_cols_large n :
  6 <= n →
  get_row_cols n = (5, pad_to_five n / 5) ∧ 5 * (pad_to_five n / 5) = pad_to_five n.
Proof.
  intros H. unfold get_row_cols.
  destruct (pad_to_five_spec n) as [H1 H2].
  rewrite range_cons by lia. cbn [first_divisor].
  rewrite H1. split; [reflexivity|].
  Z.div_mod_to_equations. lia.
Qed.

(** C1. For the slice count 3 the solver leaves rows and cols at 0: the
    candidate divisors are [range(5, 5)], which is empty, so the padded count 5
    itself is never tried, and the grid holds no slice. *)
Theorem get_row_cols_three :
  get_row_cols 3 = (0, 0) ∧ range 5 (pad_to_five 3) = [] ∧
  ¬ (fst (get_row_cols 3) * snd (get_row_cols 3) >= 3 ∧ fst (get_row_cols 3) >= 5).
Proof.
  split; [reflexivity|]. split; [reflexivity|].
  rewrite (get_row_cols_small 3) by lia. simpl. lia.
Qed.

Lemma range_app a b c : a <= b → b <= c → range a c = range a b ++ range b c.
Proof.
  intros H1 H2. unfold range.
  replace (Z.to_nat (c - a)) with (Z.to_nat (b - a) + Z.to_nat (c - b))%nat by lia.
  rewrite seq_app, fmap_app. f_equal. rewrite Nat.add_0_l.
  replace (seq (Z.to_nat (b - a)) (Z.to_nat (c - b)))
    with (Nat.add (Z.to_nat (b - a)) <$> seq 0 (Z.to_nat (c - b)))
    by (rewrite fmap_add_seq; f_equal; lia).
  rewrite <- list_fmap_compose.
  apply list_fmap_ext. intros _ k _. simpl. lia.
Qed.

Lemma fmap_range_shift {A} (f : Z → A) a d :
  (λ e, f (a + e)) <$> range 0 d = f <$> range a (a + d).
Proof.
  unfold range. rewrite <- !list_fmap_compose.
  replace (a + d - a) with (d - 0) by lia.
  apply list_fmap_ext. intros _ k _. simpl. f_equal.
Qed.

(** ** The mosaic grid loop *)

Lemma module_globals_X : module_globals !! "X" = None.
Proof. vm_compute. reflexivity. Qed.

Lemma module_globals_Y : module_globals !! "Y" = None.
Proof. vm_compute. reflexivity. Qed.

Lemma position_unbound border cols i j :
  position module_globals border cols i j = Raise (NameError "X").
Proof. unfold position, lookup_name. rewrite module_globals_X. reflexivity. Qed.

Lemma position_bound globals x y cols i j :
  globals !! "X" = Some (PNum x) → globals !! "Y" = Some (PNum y) →
  position globals 5 cols i j = Ok (cell_position x y cols i j).
Proof.
  intros HX HY. unfold position, lookup_name. rewrite HX, HY. reflexivity.
Qed.

Section GridLoop.

Variable globals : gmap string pyval.
Variables x y : Q.
Hypothesis HX : globals !! "X" = Some (PNum x).
Hypothesis HY : globals !! "Y" = Some (PNum y).
Variables num_slices cols : Z.

Lemma mosaic_row_step j i rest cnt t :
  mosaic_row globals num_slices 5 cols j (i :: rest) cnt t =
  if cnt + 1 >? num_slices
  then (t ++ place_slice x y cols j cnt i, Ok (cnt + 1))
  else mosaic_row globals num_slices 5 cols j rest (cnt + 1)
         (t ++ place_slice x y cols j cnt i).
Proof.
  cbn [mosaic_row]. unfold mbind, M_bind, call, lift, mret, M_ret.
  rewrite (position_bound globals x y) by assumption.
  unfold place_slice, cell_position. rewrite <- !app_assoc. cbn [app].
  destruct (cnt + 1 >? num_slices); reflexivity.
Qed.

Lemma mosaic_row_spec j (m : nat) : ∀ i0 cnt t,
  cnt <= num_slices → Z.of_nat m = cols - i0 →
  mosaic_row globals num_slices 5 cols j (range i0 cols) cnt t =
  (t ++ concat ((λ e, place_slice x y cols j (cnt + e) (i0 + e))
                  <$> range 0 (Z.min (Z.of_nat m) (num_slices + 1 - cnt))),
   Ok (cnt + Z.min (Z.of_nat m) (num_slices + 1 - cnt))).
Proof.
  induction m as [|m IH]; intros i0 cnt t Hc Hm.
  - rewrite range_nil by lia. rewrite Z.min_l by lia.
    rewrite (range_nil 0) by lia.
    cbn. rewrite app_nil_r, Z.add_0_r. reflexivity.
  - rewrite (range_cons i0) by lia. rewrite mosaic_row_step.
    destruct (cnt + 1 >? num_slices) eqn:E.
    + apply Z.gtb_lt in E. assert (cnt = num_slices) as -> by lia.
      replace (Z.min (Z.of_nat (S m)) (num_slices + 1 - num_slices)) with 1 by lia.
      rewrite (range_cons 0 1), (range_nil (0 + 1)) by lia.
      cbn [fmap list_fmap concat]. rewrite app_nil_r, !Z.add_0_r. reflexivity.
    + assert (cnt + 1 <= num_slices) as Hc'
        by (destruct (Z.gtb_spec (cnt + 1) num_slices); [discriminate | lia]).
      rewrite IH by lia.
      replace (Z.min (Z.of_nat (S m)) (num_slices + 1 - cnt))
        with (Z.min (Z.of_nat m) (num_slices + 1 - (cnt + 1)) + 1) by lia.
      set (d := Z.min (Z.of_nat m) (num_slices + 1 - (cnt + 1))).
      assert (0 <= d) by lia.
      rewrite (range_cons 0 (d + 1)) by lia.
      cbn [fmap list_fmap concat]. rewrite !Z.add_0_r, <- app_assoc.
      f_equal; [|f_equal; lia]. do 2 f_equal.
      change (0 + 1) with 1. replace (d + 1) with (1 + d) by lia.
      rewrite <- (fmap_range_shift (λ e, place_slice x y cols j (cnt + e) (i0 + e)) 1 d).
      f_equal. apply list_fmap_ext. intros _ k _. cbv beta. f_equal; lia.
Qed.

Lemma place_row_cells j cnt d :
  0 <= j → cnt = j * cols → d <= cols →
  (λ e, place_slice x y cols j (cnt + e) (0 + e)) <$> range 0 d =
  place_row_major x y cols <$> range cnt (cnt + d).
Proof.
  intros Hj Hc Hd. rewrite <- fmap_range_shift.
  apply list_eq. intros k. rewrite !list_lookup_fmap.
  destruct (decide (Z.of_nat k < d - 0)) as [Hk|Hk].
  - rewrite range_lookup by assumption. cbn. f_equal.
    unfold place_row_major.
    assert (0 < cols) by lia.
    assert ((cnt + (0 + Z.of_nat k)) / cols = j) as ->.
    { subst cnt. rewrite Z.add_0_l, Z.add_comm, Z.div_add by lia.
      rewrite Z.div_small by lia. reflexivity. }
    assert ((cnt + (0 + Z.of_nat k)) mod cols = 0 + (0 + Z.of_nat k)) as ->.
    { subst cnt. rewrite Z.add_0_l, Z.add_comm, Z.mod_add by lia.
      rewrite Z.mod_small by lia. lia. }
    reflexivity.
  - rewrite lookup_ge_None_2; [reflexivity|]. rewrite range_length. lia.
Qed.

Lemma mosaic_grid_spec rows (r : nat) : ∀ j0 cnt t,
  0 <= cols → 0 <= j0 → cnt = j0 * cols → cnt <= num_slices →
  Z.of_nat r = rows - j0 →
  mosaic_grid globals num_slices 5 cols (range j0 rows) cnt t =
  (t ++ concat (place_row_major x y cols
                  <$> range cnt (Z.min (rows * cols) (num_slices + 1))),
   Ok (Z.min (rows * cols) (num_slices + 1))).
Proof.
  induction r as [|r IH]; intros j0 cnt t Hcols Hj Hc Hn Hr.
  - rewrite range_nil by lia. assert (rows = j0) as -> by lia.
    rewrite Z.min_l by lia. rewrite <- Hc, range_nil by lia.
    cbn. rewrite app_nil_r. reflexivity.
  - rewrite (range_cons j0) by lia. cbn [mosaic_grid].
    unfold mbind at 1, M_bind at 1.
    rewrite (mosaic_row_spec j0 (Z.to_nat cols)) by lia.
    rewrite Z2Nat.id by lia.
    set (d := Z.min cols (num_slices + 1 - cnt)).
    assert (0 <= d <= cols) by lia.
    rewrite (place_row_cells j0 cnt d) by lia.
    assert ((j0 + 1) * cols <= rows * cols) by nia.
    destruct (cnt + d >? num_slices) eqn:E.
    + apply Z.gtb_lt in E.
      assert (cnt + d = num_slices + 1) as Hd by lia.
      rewrite (Z.min_r (rows * cols)) by nia.
      cbn. rewrite Hd. reflexivity.
    + assert (cnt + d <= num_slices) as Hc'
        by (destruct (Z.gtb_spec (cnt + d) num_slices); [discriminate | lia]).
      assert (d = cols) as Hd by lia.
      rewrite IH by (try lia; nia).
      rewrite <- app_assoc, <- concat_app, <- fmap_app, <- range_app by lia.
      reflexivity.
Qed.

End GridLoop.

Lemma displayed_place_row_major x y cols (l : list Z) :
  displayed (concat (place_row_major x y cols <$> l)) = l.
Proof.
  induction l as [|k l IH]; [reflexivity|].
  cbn [fmap list_fmap concat]. unfold displayed in *.
  rewrite omap_app, IH. reflexivity.
Qed.

(** C4. Once the overlay is built and the solver has returned a grid with
    rows > 0 and cols > 0, [create_mosaic] run in the module's own namespace
    (where neither [X] nor [Y] is bound) raises [NameError] for [X] in the
    first pass of the grid loop: after the actor was copied and slice 0
    displayed, before any [SetPosition], before any slice is added to the
    renderer, and before the scene is recorded to a file. *)
Theorem create_mosaic_raises_NameError
    (static_img moved_img : ndarray Q) (aff : affine) (fname : string)
    (overlay : ndarray Z) (value_range : fl * fl) (a b num_slices : nat)
    (rows cols : Z) (t : list event) :
  process_image_data static_img moved_img "mosaic" = Ok (overlay, value_range) →
  unpack3 (take 3 (slicer_shape overlay)) = Ok (a, b, num_slices) →
  get_row_cols (Z.of_nat num_slices) = (rows, cols) →
  0 < rows → 0 < cols →
  module_globals !! "X" = None ∧ module_globals !! "Y" = None ∧
  create_mosaic module_globals static_img moved_img aff fname t =
    (t ++ [NewRenderer; Background 0.5 0.5 0.5; Slicer (U8 overlay) aff value_range;
           Projection "parallel"; CopyActor; Display 0],
     Raise (NameError "X")).
Proof.
  intros Hp Hu Hrc Hr Hc.
  split; [apply module_globals_X|]. split; [apply module_globals_Y|].
  unfold create_mosaic, mbind, M_bind, lift, call.
  rewrite Hp. cbn beta iota. rewrite Hu. cbn beta iota. rewrite Hrc.
  rewrite (range_cons 0 rows) by lia. cbn [mosaic_grid].
  unfold mbind, M_bind.
  rewrite (range_cons 0 cols) by lia. cbn [mosaic_row].
  unfold mbind, M_bind, lift, call. rewrite position_unbound.
  rewrite <- !app_assoc. reflexivity.
Qed.

Lemma create_mosaic_raises_NameError_witness :
  snd (create_mosaic module_globals ramp7 ramp7 [] "mosaic.png" []) = Raise (NameError "X").
Proof.
  destruct (process_image_data ramp7 ramp7 "mosaic") as [[ov vr]|e] eqn:Hp;
    [|vm_compute in Hp; discriminate].
  assert (shape ov = [1; 1; 7; 3]%nat) as Hs.
  { vm_compute in Hp. injection Hp as <- _. reflexivity. }
  destruct (create_mosaic_raises_NameError ramp7 ramp7 [] "mosaic.png" ov vr 1 1 7 5 2 [])
    as (_ & _ & ->); try lia; try reflexivity.
  - exact Hp.
  - unfold slicer_shape. rewrite Hs. reflexivity.
Defined.




(** ** Arrays: channels and broadcasting *)

Lemma size_of_snoc sh n : size_of (sh ++ [n]) = (size_of sh * n)%nat.
Proof.
  unfold size_of. induction sh as [|a sh IH]; simpl; [lia|]. rewrite IH. lia.
Qed.

Lemma omap_lookup_all {A B} (f : A → option B) (l : list A) :
  (∀ x, x ∈ l → is_Some (f x)) → ∀ k, omap f l !! k = l !! k ≫= f.
Proof.
  induction l as [|a l IH]; intros H k; [reflexivity|].
  destruct (H a) as [b Hb]; [left|].
  cbn [omap list_omap]. rewrite Hb.
  destruct k as [|k]; [symmetry; exact Hb|].
  cbn. apply IH. intros x Hx. apply H. by right.
Qed.

Lemma omap_length_all {A B} (f : A → option B) (l : list A) :
  (∀ x, x ∈ l → is_Some (f x)) → length (omap f l) = length l.
Proof.
  induction l as [|a l IH]; intros H; [reflexivity|].
  destruct (H a) as [b Hb]; [left|].
  cbn [omap list_omap]. rewrite Hb. cbn. f_equal.
  apply IH. intros x Hx. apply H. by right.
Qed.

Section Channels.

Context {A : Type}.
Variables (C c n : nat) (d : list A).
Hypothesis Hc : (c < C)%nat.
Hypothesis Hd : length d = (n * C)%nat.

Lemma channel_defined (k : nat) :
  k ∈ seq 0 (length d `div` C) → is_Some (d !! (k * C + c)%nat).
Proof.
  intros Hk. apply elem_of_seq in Hk. apply lookup_lt_is_Some.
  rewrite Hd in *. rewrite Nat.div_mul in Hk by lia. nia.
Qed.

Lemma channel_length : length (channel C c d) = n.
Proof.
  unfold channel. rewrite omap_length_all by apply channel_defined.
  rewrite length_seq, Hd, Nat.div_mul by lia. reflexivity.
Qed.

Lemma channel_lookup (k : nat) : (k < n)%nat → channel C c d !! k = d !! (k * C + c)%nat.
Proof.
  intros Hk. unfold channel. rewrite omap_lookup_all by apply channel_defined.
  rewrite lookup_seq_lt; [reflexivity|].
  rewrite Hd, Nat.div_mul by lia. exact Hk.
Qed.

End Channels.

Lemma set_channel_lookup {A} (C c : nat) (vals d : list A) (i : nat) :
  set_channel C c vals d !! i =
  (λ x, if (i `mod` C =? c)%nat then default x (vals !! (i `div` C)%nat) else x) <$> d !! i.
Proof. unfold set_channel. apply list_lookup_imap. Qed.

Lemma set_channel_length {A} (C c : nat) (vals d : list A) :
  length (set_channel C c vals d) = length d.
Proof. unfold set_channel. apply length_imap. Qed.

Lemma index_div_mod (C c k : nat) :
  (c < C)%nat → ((k * C + c) `mod` C = c ∧ (k * C + c) `div` C = k)%nat.
Proof.
  intros H. split.
  - rewrite Nat.add_comm, Nat.Div0.mod_add. apply Nat.mod_small. exact H.
  - rewrite Nat.add_comm, Nat.div_add by lia. rewrite Nat.div_small by lia. lia.
Qed.

(** Reading the channel that was just written gives the written values;
    reading another channel gives what was there before. *)
Lemma channel_set_channel_eq {A} (C c n : nat) (vals d : list A) :
  (c < C)%nat → length d = (n * C)%nat → length vals = n →
  channel C c (set_channel C c vals d) = vals.
Proof.
  intros Hc Hd Hv. apply list_eq. intros k.
  destruct (decide (k < n)%nat) as [Hk|Hk].
  - rewrite (channel_lookup C c n) by (rewrite ?set_channel_length; assumption).
    rewrite set_channel_lookup.
    destruct (index_div_mod C c k Hc) as [-> ->]. rewrite Nat.eqb_refl.
    destruct (lookup_lt_is_Some_2 d (k * C + c)) as [x ->]; [nia|].
    destruct (lookup_lt_is_Some_2 vals k) as [v Hv']; [lia|].
    rewrite Hv'. reflexivity.
  - rewrite !lookup_ge_None_2; [reflexivity | lia |].
    rewrite (channel_length C c n) by (rewrite ?set_channel_length; assumption). lia.
Qed.


Lemma chunks_concat {A} (n k : nat) (d : list A) :
  length d = (n * k)%nat → concat (chunks n k d) = d.
Proof.
  revert d. induction n as [|n IH]; intros d H.
  - destruct d; [reflexivity | discriminate].
  - cbn [chunks concat]. rewrite IH; [apply take_drop|].
    rewrite length_drop. lia.
Qed.

Lemma chunks_lengths {A} (n k : nat) (d : list A) :
  length d = (n * k)%nat → Forall (λ ch, length ch = k) (chunks n k d).
Proof.
  revert d. induction n as [|n IH]; intros d H; cbn [chunks]; constructor.
  - rewrite length_take. lia.
  - apply IH. rewrite length_drop. lia.
Qed.

Lemma broadcast_axes_same {A} (sh : list nat) (d : list A) :
  length d = size_of sh → broadcast_axes sh sh d = Some d.
Proof.
  revert d. induction sh as [|s sh IH]; intros d H; [reflexivity|].
  cbn [broadcast_axes]. rewrite Nat.eqb_refl.
  assert (mapM (broadcast_axes sh sh) (chunks s (size_of sh) d)
          = Some (chunks s (size_of sh) d)) as ->.
  { apply mapM_Some. apply Forall2_same_length_lookup_2; [reflexivity|].
    intros i x y Hx Hy. assert (x = y) as -> by congruence.
    apply IH.
    eapply (Forall_lookup_1 _ _ _ _ (chunks_lengths s (size_of sh) d H) Hy). }
  cbn. f_equal. apply chunks_concat. exact H.
Qed.

Lemma align_same (sh : list nat) : align sh sh = sh.
Proof.
  unfold align. rewrite Nat.leb_refl, Nat.sub_diag. reflexivity.
Qed.

Lemma broadcast_to_same {A} (tgt : list nat) (a : ndarray A) :
  shape a = tgt → wf a → broadcast_to tgt a = Ok (data a).
Proof.
  intros <- H. unfold broadcast_to. rewrite align_same, broadcast_axes_same by exact H.
  reflexivity.
Qed.

Lemma nd_map_wf {A B} (f : A → B) (a : ndarray A) : wf a → wf (nd_map f a).
Proof. unfold wf, nd_map. cbn. by rewrite length_fmap. Qed.

(** ** The normalizer *)

Local Open Scope Q_scope.

Lemma foldl_Qmin_spec (xs : list Q) : ∀ x,
  foldl Qmin x xs <= x ∧ Forall (λ v, foldl Qmin x xs <= v) xs.
Proof.
  induction xs as [|a xs IH]; intros x; cbn [foldl].
  - split; [apply Qle_refl | constructor].
  - destruct (IH (Qmin x a)) as [H1 H2]. split.
    + eapply Qle_trans; [exact H1 | apply Q.le_min_l].
    + constructor; [|exact H2].
      eapply Qle_trans; [exact H1 | apply Q.le_min_r].
Qed.

Lemma foldl_Qmax_spec (xs : list Q) : ∀ x,
  x <= foldl Qmax x xs ∧ Forall (λ v, v <= foldl Qmax x xs) xs.
Proof.
  induction xs as [|a xs IH]; intros x; cbn [foldl].
  - split; [apply Qle_refl | constructor].
  - destruct (IH (Qmax x a)) as [H1 H2]. split.
    + eapply Qle_trans; [apply Q.le_max_l | exact H1].
    + constructor; [|exact H2].
      eapply Qle_trans; [apply Q.le_max_r | exact H1].
Qed.

Lemma np_min_spec (d : list Q) (mn : Q) :
  np_min d = Ok mn → Forall (λ v, mn <= v) d.
Proof.
  destruct d as [|x xs]; [discriminate|]. intros [= <-].
  destruct (foldl_Qmin_spec xs x). by constructor.
Qed.

Lemma np_max_spec (d : list Q) (mx : Q) :
  np_max d = Ok mx → Forall (λ v, v <= mx) d.
Proof.
  destruct d as [|x xs]; [discriminate|]. intros [= <-].
  destruct (foldl_Qmax_spec xs x). by constructor.
Qed.

Lemma np_min_max_defined (d : list Q) :
  d ≠ [] → ∃ mn mx, np_min d = Ok mn ∧ np_max d = Ok mx.
Proof. destruct d; [congruence|]. intros _. eauto. Qed.

Lemma Qzero_b_true (q : Q) : Qzero_b q = true ↔ q == 0.
Proof. apply Qeq_bool_iff. Qed.



Lemma rescale_entry_nan (mn mx x : Q) :
  mn <= x → x <= mx → mn == mx → rescale_entry mn mx x = NaN.
Proof.
  intros H1 H2 He. unfold rescale_entry, fsub, fneg, fadd, fdiv.
  assert (Qzero_b (Qred (mx + - mn)) = true) as ->.
  { apply Qzero_b_true. rewrite Qred_correct. lra. }
  assert (Qzero_b (Qred (x + - mn)) = true) as ->.
  { apply Qzero_b_true. rewrite Qred_correct. lra. }
  reflexivity.
Qed.

Local Close Scope Q_scope.

Lemma rescale_unfold (img : ndarray Q) (mn mx : Q) :
  np_min (data img) = Ok mn → np_max (data img) = Ok mx →
  rescale img = Ok (nd_map (rescale_entry mn mx) img).
Proof. intros Hmn Hmx. unfold rescale. rewrite Hmn, Hmx. reflexivity. Qed.




(** ** The overlay *)

Lemma rescale_shape (img : ndarray Q) (out : ndarray fl) :
  rescale img = Ok out → shape out = shape img ∧ length (data out) = length (data img).
Proof.
  unfold rescale, mbind, result_bind. destruct (np_min (data img)); [|discriminate].
  destruct (np_max (data img)); [|discriminate].
  intros [= <-]. split; [reflexivity | apply length_fmap].
Qed.

Lemma assign_channel_inv (C c : nat) (vals : ndarray fl) (a out : ndarray Z) :
  assign_channel C c vals a = Ok out →
  ∃ v, broadcast_to (removelast (shape a)) (nd_map cast_uint8 vals) = Ok v ∧
       out = NdArray (shape a) (set_channel C c v (data a)).
Proof.
  unfold assign_channel, mbind, result_bind.
  destruct (broadcast_to _ _) as [v|]; [|discriminate].
  intros [= <-]. eauto.
Qed.

(** What [process_image_data] returns when it returns. *)
Lemma process_image_data_inv (static_img moved_img : ndarray Q) (type_vis : string)
    (overlay : ndarray Z) (value_range : fl * fl) :
  process_image_data static_img moved_img type_vis = Ok (overlay, value_range) →
  ∃ s' m' c0 c1,
    rescale static_img = Ok s' ∧ rescale moved_img = Ok m' ∧
    broadcast_to (shape static_img) (nd_map cast_uint8 s') = Ok c0 ∧
    broadcast_to (shape static_img) (nd_map cast_uint8 m') = Ok c1 ∧
    overlay = NdArray (shape static_img ++ [3%nat])
                (set_channel 3 1 c1
                   (set_channel 3 0 c0
                      (replicate (size_of (shape static_img ++ [3%nat])) 0))) ∧
    value_range =
      (fsub (mean (positive_entries overlay)) (fmul (Fin 0.5) (std (positive_entries overlay))),
       fadd (mean (positive_entries overlay)) (fmul (Fin 1.5) (std (positive_entries overlay)))) ∧
    (type_vis = "mosaic" ∨ type_vis = "anim").
Proof.
  unfold process_image_data, mbind, result_bind. intros H.
  destruct (rescale static_img) as [s'|] eqn:Hs; [|discriminate].
  destruct (rescale moved_img) as [m'|] eqn:Hm; [|discriminate].
  destruct (rescale_shape _ _ Hs) as [Hsh _]. rewrite Hsh in H.
  destruct (assign_channel 3 0 s' _) as [o0|] eqn:H0; [|discriminate].
  destruct (assign_channel 3 1 m' o0) as [o1|] eqn:H1; [|discriminate].
  apply assign_channel_inv in H0 as (c0 & Hc0 & ->).
  apply assign_channel_inv in H1 as (c1 & Hc1 & ->).
  cbn [shape data zeros] in *. rewrite removelast_last in *.
  exists s', m', c0, c1.
  destruct (String.eqb type_vis "mosaic") eqn:E1;
    [|destruct (String.eqb type_vis "anim") eqn:E2; [|discriminate]];
    injection H as <- <-; repeat (split; [done|]).
  - left. by apply String.eqb_eq.
  - right. by apply String.eqb_eq.
Qed.

Lemma process_image_data_shape (static_img moved_img : ndarray Q) (type_vis : string)
    (overlay : ndarray Z) (value_range : fl * fl) :
  process_image_data static_img moved_img type_vis = Ok (overlay, value_range) →
  shape overlay = shape static_img ++ [3%nat] ∧
  length (data overlay) = (size_of (shape static_img) * 3)%nat.
Proof.
  intros H. apply process_image_data_inv in H as (s' & m' & c0 & c1 & _ & _ & _ & _ & -> & _).
  split; [reflexivity|]. cbn [data].
  rewrite !set_channel_length, length_replicate. apply size_of_snoc.
Qed.

(** It returns on well-formed volumes of one shape that are not empty. *)
Lemma process_image_data_defined (static_img moved_img : ndarray Q) (type_vis : string) :
  wf static_img → wf moved_img → shape static_img = shape moved_img →
  data static_img ≠ [] → type_vis = "mosaic" ∨ type_vis = "anim" →
  ∃ overlay value_range,
    process_image_data static_img moved_img type_vis = Ok (overlay, value_range).
Proof.
  intros Hs Hm Hsh Hne Htv.
  assert (data moved_img ≠ []) as Hne'.
  { intros E. apply Hne. apply length_zero_iff_nil.
    unfold wf in *. rewrite Hs, Hsh, <- Hm, E. reflexivity. }
  destruct (np_min_max_defined _ Hne) as (mn & mx & Hmn & Hmx).
  destruct (np_min_max_defined _ Hne') as (mn' & mx' & Hmn' & Hmx').
  unfold process_image_data.
  rewrite (rescale_unfold _ _ _ Hmn Hmx), (rescale_unfold _ _ _ Hmn' Hmx').
  unfold assign_channel, mbind, result_bind.
  cbn [shape nd_map zeros data]. rewrite removelast_last.
  rewrite (broadcast_to_same (shape static_img))
    by (try reflexivity; by do 2 apply nd_map_wf).
  cbn [shape data]. rewrite removelast_last.
  rewrite (broadcast_to_same (shape static_img))
    by (try (symmetry; exact Hsh); by do 2 apply nd_map_wf).
  destruct Htv as [-> | ->]; cbn; eauto.
Qed.

(** C6. For well-formed, non-empty volumes of one shape and either mode tag,
    [process_image_data] returns an overlay whose shape is the volumes' shape
    with a channel axis of length 3, and whose channel 2, [overlay[..., 2]], is
    the zero array of the volumes' shape: zero at every voxel. *)
Theorem overlay_channel_2_is_zero (static_img moved_img : ndarray Q) (type_vis : string) :
  wf static_img → wf moved_img → shape static_img = shape moved_img →
  data static_img ≠ [] → type_vis = "mosaic" ∨ type_vis = "anim" →
  ∃ overlay value_range,
    process_image_data static_img moved_img type_vis = Ok (overlay, value_range) ∧
    shape overlay = shape static_img ++ [3%nat] ∧
    get_channel 2 overlay = Ok (zeros (shape static_img)) ∧
    ∀ k : nat, (k < size_of (shape static_img))%nat →
               data overlay !! (k * 3 + 2)%nat = Some 0.
Proof.
  intros Hs Hm Hsh Hne Htv.
  destruct (process_image_data_defined _ _ _ Hs Hm Hsh Hne Htv) as (ov & vr & Hp).
  exists ov, vr. split; [exact Hp|].
  apply process_image_data_inv in Hp as (s' & m' & c0 & c1 & _ & _ & _ & _ & -> & _).
  split; [reflexivity|].
  set (n := size_of (shape static_img)).
  assert (∀ k : nat, (k < n)%nat →
            set_channel 3 1 c1 (set_channel 3 0 c0
              (replicate (size_of (shape static_img ++ [3%nat])) 0)) !! (k * 3 + 2)%nat
            = Some 0) as Hz.
  { intros k Hk. rewrite !set_channel_lookup.
    destruct (index_div_mod 3 2 k) as [-> _]; [lia|].
    rewrite lookup_replicate_2 by (rewrite size_of_snoc; fold n; lia).
    reflexivity. }
  split; [|exact Hz].
  unfold get_channel. cbn [shape data]. rewrite last_snoc, removelast_last.
  cbn [Nat.ltb Nat.leb]. unfold zeros. do 2 f_equal.
  apply list_eq. intros k. destruct (decide (k < n)%nat) as [Hk|Hk].
  - rewrite (channel_lookup 3 2 n)
      by (rewrite ?set_channel_length, ?length_replicate, ?size_of_snoc; fold n; lia).
    rewrite Hz by exact Hk. symmetry. by apply lookup_replicate_2.
  - rewrite !lookup_ge_None_2; [reflexivity | rewrite length_replicate; fold n; lia |].
    rewrite (channel_length 3 2 n)
      by (rewrite ?set_channel_length, ?length_replicate, ?size_of_snoc; fold n; lia).
    lia.
Qed.

Lemma overlay_channel_2_is_zero_witness :
  ∃ overlay value_range,
    process_image_data two_voxels two_voxels "mosaic" = Ok (overlay, value_range) ∧
    shape overlay = shape two_voxels ++ [3%nat] ∧
    get_channel 2 overlay = Ok (zeros (shape two_voxels)) ∧
    ∀ k : nat, (k < size_of (shape two_voxels))%nat →
               data overlay !! (k * 3 + 2)%nat = Some 0.
Proof.
  apply (overlay_channel_2_is_zero two_voxels two_voxels "mosaic");
    [reflexivity | reflexivity | reflexivity | discriminate | left; reflexivity].
Defined.

(** ** The value range *)

(** C10 (as claimed). For the two-voxel volumes the overlay is
    (0, 0, 0), (255, 255, 0). The code takes its statistics over the positive
    entries 255, 255 and returns the range (255, 255); over the entries of the
    voxels that have a nonzero channel, 255, 255, 0, the mean is 170 and the
    range starts strictly lower. *)
Lemma value_range_is_not_per_voxel :
  ∃ overlay value_range,
    process_image_data two_voxels two_voxels "mosaic" = Ok (overlay, value_range) ∧
    data overlay = [0; 0; 0; 255; 255; 0] ∧
    positive_entries overlay = [255; 255] ∧
    nonzero_voxel_entries overlay = [255; 255; 0] ∧
    value_range = (Fin 255, Fin 255) ∧
    mean (nonzero_voxel_entries overlay) = Fin 170 ∧
    fltb (fst (value_range_over (nonzero_voxel_entries overlay))) (fst value_range) = true ∧
    value_range ≠ value_range_over (nonzero_voxel_entries overlay).
Proof.
  eexists _, _. split; [vm_compute; reflexivity|].
  repeat (split; [vm_compute; reflexivity|]).
  vm_compute. discriminate.
Qed.

(** C10 (amended). The two mode tags give the same result, and whenever
    [process_image_data] returns, the value range is
    (mean - 0.5 std, mean + 1.5 std) with the mean and the standard deviation
    taken over the overlay's entries (channel values) that are greater than
    zero, [overlay[overlay > 0]]; it returns for well-formed, non-empty volumes
    of one shape. *)
Theorem value_range_over_positive_entries (static_img moved_img : ndarray Q) :
  process_image_data static_img moved_img "mosaic"
    = process_image_data static_img moved_img "anim" ∧
  (∀ type_vis overlay value_range,
     process_image_data static_img moved_img type_vis = Ok (overlay, value_range) →
     let entries := filter (λ v, 0 < v) (data overlay) in
     value_range = (fsub (mean entries) (fmul (Fin 0.5) (std entries)),
                    fadd (mean entries) (fmul (Fin 1.5) (std entries)))) ∧
  (wf static_img → wf moved_img → shape static_img = shape moved_img →
   data static_img ≠ [] →
   ∃ overlay value_range,
     process_image_data static_img moved_img "mosaic" = Ok (overlay, value_range) ∧
     process_image_data static_img moved_img "anim" = Ok (overlay, value_range)).
Proof.
  assert (process_image_data static_img moved_img "mosaic"
          = process_image_data static_img moved_img "anim") as Heq.
  { unfold process_image_data, mbind, result_bind.
    destruct (rescale static_img); [|reflexivity].
    destruct (rescale moved_img); [|reflexivity].
    destruct (assign_channel 3 0 _ _); [|reflexivity].
    destruct (assign_channel 3 1 _ _); reflexivity. }
  split; [exact Heq|]. split.
  - intros tv ov vr H entries.
    apply process_image_data_inv in H as (_ & _ & _ & _ & _ & _ & _ & _ & _ & -> & _).
    reflexivity.
  - intros Hs Hm Hsh Hne.
    destruct (process_image_data_defined _ _ "mosaic" Hs Hm Hsh Hne) as (ov & vr & Hp);
      [by left|].
    exists ov, vr. split; [exact Hp|]. rewrite <- Heq. exact Hp.
Qed.

Lemma value_range_over_positive_entries_witness :
  ∃ overlay value_range,
    process_image_data two_voxels two_voxels "mosaic" = Ok (overlay, value_range) ∧
    process_image_data two_voxels two_voxels "anim" = Ok (overlay, value_range).
Proof.
  apply (value_range_over_positive_entries two_voxels two_voxels);
    [reflexivity | reflexivity | reflexivity | discriminate].
Defined.

(** ** The dimension check *)

(** C2 (as claimed). The volumes of shapes (10, 10, 10) and (10, 10, 5) pass
    the dimension check. With no output requested [run] logs and ends without
    any error; with the mosaic requested the error comes later and from
    elsewhere: the assignment of the moving volume into the overlay fails to
    broadcast. *)
Lemma check_dimensions_accepts_shape_mismatch :
  shape (sample_load "static.nii") = [10; 10; 10]%nat ∧
  shape (sample_load "moving.nii") = [10; 10; 5]%nat ∧
  check_dimensions (sample_load "static.nii") (sample_load "moving.nii") = Ok () ∧
  run_body blank_snapshot sample_load sample_affine module_globals
    ("static.nii", "moving.nii", "affine.txt") false None "mosaic.png" "animation.gif" []
    = ([LogInfo "No options supplied. Exiting."], Ok ()) ∧
  run_body blank_snapshot sample_load sample_affine module_globals
    ("static.nii", "moving.nii", "affine.txt") true None "mosaic.png" "animation.gif" []
    = ([], Raise broadcast_error).
Proof. repeat split; vm_compute; reflexivity. Qed.

(** C2 (amended). The check compares the numbers of axes, not the shapes.
    When the two volumes differ in their number of axes, [check_dimensions]
    raises the dimension-mismatch error and [run] stops there, before any call
    to a collaborator: no overlay is built and nothing is written. Volumes
    with the same number of axes always pass the check, whatever their
    extents. *)
Theorem check_dimensions_compares_number_of_axes
    (snapshot : list event → ndarray Z) (nib_load : string → ndarray Q)
    (load_affine_matrix : string → affine) (globals : gmap string pyval)
    (static_file moving_file affine_file : string)
    (show_mosaic : bool) (anim_slice_type : option string)
    (mosaic_file animate_file : string) (t : list event) :
  length (shape (nib_load static_file)) ≠ length (shape (nib_load moving_file)) →
  check_dimensions (nib_load static_file) (nib_load moving_file) = Raise dimension_mismatch ∧
  run_body snapshot nib_load load_affine_matrix globals
    (static_file, moving_file, affine_file) show_mosaic anim_slice_type
    mosaic_file animate_file t = (t, Raise dimension_mismatch) ∧
  (∀ static moving : ndarray Q,
     length (shape static) = length (shape moving) → check_dimensions static moving = Ok ()).
Proof.
  intros Hne.
  assert (check_dimensions (nib_load static_file) (nib_load moving_file)
          = Raise dimension_mismatch) as Hc.
  { unfold check_dimensions.
    destruct (Nat.eqb_spec (length (shape (nib_load static_file)))
                           (length (shape (nib_load moving_file)))); [contradiction|].
    reflexivity. }
  split; [exact Hc|]. split.
  - unfold run_body, mbind, M_bind, lift. rewrite Hc. reflexivity.
  - intros static moving H. unfold check_dimensions. rewrite H, Nat.eqb_refl. reflexivity.
Qed.

Lemma check_dimensions_compares_number_of_axes_witness :
  run_body blank_snapshot sample_load sample_affine module_globals
    ("static.nii", "image.nii", "affine.txt") true (Some "axial")
    "mosaic.png" "animation.gif" [] = ([], Raise dimension_mismatch).
Proof.
  apply (check_dimensions_compares_number_of_axes blank_snapshot sample_load sample_affine
           module_globals "static.nii" "image.nii" "affine.txt" true (Some "axial")
           "mosaic.png" "animation.gif" []).
  vm_compute. lia.
Defined.

(** ** The animation *)

Lemma select_plane_unrecognized (sli_type : option string) (x y z : nat) :
  sli_type ≠ Some "saggital" → sli_type ≠ Some "coronal" → sli_type ≠ Some "axial" →
  select_plane sli_type x y z = (0, None).
Proof.
  intros H1 H2 H3. unfold select_plane. destruct sli_type as [s|]; [|reflexivity].
  destruct (String.eqb_spec s "saggital") as [->|_]; [contradiction|].
  destruct (String.eqb_spec s "coronal") as [->|_]; [contradiction|].
  destruct (String.eqb_spec s "axial") as [->|_]; [contradiction|].
  reflexivity.
Qed.

(** C9. When the overlay is built (a 3-D volume pair) and the plane selector
    is none of "saggital", "coronal", "axial" (Python's None included),
    [num_slices] is 0, the frame loop makes no pass, and both animation paths
    hand the empty frame sequence to the GIF writer and return without
    raising; no slice is extracted, rendered or captured. *)
Theorem animate_unrecognized_plane_is_empty
    (snapshot : list event → ndarray Z) (static_img moved_img : ndarray Q)
    (sli_type : option string) (fname : string) (aff : affine)
    (overlay : ndarray Z) (value_range : fl * fl) (x y z c : nat) (t : list event) :
  process_image_data static_img moved_img "anim" = Ok (overlay, value_range) →
  shape overlay = [x; y; z; c] →
  sli_type ≠ Some "saggital" → sli_type ≠ Some "coronal" → sli_type ≠ Some "axial" →
  select_plane sli_type x y z = (0, None) ∧
  animate_overlap_with_renderer snapshot static_img moved_img sli_type fname aff t =
    (t ++ [NewRenderer; Background 0.5 0.5 0.5; WriteGif [] fname 10], Ok ()) ∧
  animate_overlap static_img moved_img sli_type fname t =
    (t ++ [WriteGif [] fname 10], Ok ()).
Proof.
  intros Hp Hs H1 H2 H3.
  pose proof (select_plane_unrecognized sli_type x y z H1 H2 H3) as Hsel.
  split; [exact Hsel|]. split.
  - unfold animate_overlap_with_renderer, mbind, M_bind, lift, call.
    rewrite Hp. cbn beta iota. rewrite Hs. cbn [unpack4]. cbn beta iota.
    rewrite Hsel. cbn beta iota. rewrite (range_nil 0 0) by lia.
    cbn [for_each]. unfold mret, M_ret. rewrite <- !app_assoc. reflexivity.
  - unfold animate_overlap, mbind, M_bind, lift, call.
    rewrite Hp. cbn beta iota. rewrite Hs. cbn [unpack4]. cbn beta iota.
    rewrite Hsel. cbn beta iota. rewrite (range_nil 0 0) by lia.
    cbn [for_each]. unfold mret, M_ret. reflexivity.
Qed.

Lemma animate_unrecognized_plane_is_empty_witness :
  animate_overlap_with_renderer blank_snapshot two_voxels two_voxels (Some "sagittal")
    "animation.gif" [] [] =
    ([NewRenderer; Background 0.5 0.5 0.5; WriteGif [] "animation.gif" 10], Ok ()).
Proof.
  destruct (process_image_data two_voxels two_voxels "anim") as [[ov vr]|e] eqn:Hp;
    [|vm_compute in Hp; discriminate].
  assert (shape ov = [2; 1; 1; 3]%nat) as Hs.
  { vm_compute in Hp. injection Hp as <- _. reflexivity. }
  apply (animate_unrecognized_plane_is_empty blank_snapshot two_voxels two_voxels
           (Some "sagittal") "animation.gif" [] ov vr 2 1 1 3 [] Hp Hs);
    discriminate.
Defined.

Lemma for_each_collect {B} (g : Z → B) (body : Z → list B → M (list B)) (indices : list Z) :
  (∀ i acc t, i ∈ indices → body i acc t = (t, Ok (acc ++ [g i]))) →
  ∀ acc t, for_each indices body acc t = (t, Ok (acc ++ (g <$> indices))).
Proof.
  induction indices as [|i rest IH]; intros Hb acc t.
  - cbn. unfold mret, M_ret. by rewrite app_nil_r.
  - cbn [for_each]. unfold mbind, M_bind. rewrite Hb by left.
    rewrite IH by (intros; apply Hb; by right).
    cbn [fmap list_fmap]. by rewrite <- app_assoc.
Qed.

Lemma concat_length_uniform {A} (k : nat) (ls : list (list A)) :
  Forall (λ l, length l = k) ls → length (concat ls) = (length ls * k)%nat.
Proof.
  induction 1 as [|l ls Hl _ IH]; [reflexivity|].
  cbn. rewrite length_app, IH, Hl. reflexivity.
Qed.

Lemma flat_index_bound (a b c A B C : nat) :
  (a < A)%nat → (b < B)%nat → (c < C)%nat → ((a * B + b) * C + c < A * B * C)%nat.
Proof.
  intros Ha Hb Hc.
  assert (a * B + b + 1 <= A * B)%nat as H1 by nia.
  assert ((a * B + b + 1) * C <= A * B * C)%nat as H2 by (apply Nat.mul_le_mono_r; exact H1).
  lia.
Qed.

Lemma plane_index_bound (nx ny nz axis i N H W p : nat) :
  (axis < 3)%nat → plane_dims nx ny nz axis = (N, H, W) → (i < N)%nat → (p < H * W)%nat →
  (plane_index ny nz axis i (p `div` W) (p `mod` W) < nx * ny * nz)%nat.
Proof.
  intros Ha Hd Hi Hp.
  assert (0 < W)%nat as HW by (destruct W; lia).
  assert (p `div` W < H)%nat as Hh by (apply Nat.Div0.div_lt_upper_bound; lia).
  assert (p `mod` W < W)%nat as Hw by (apply Nat.mod_upper_bound; lia).
  revert Hh Hw. generalize (p `div` W)%nat (p `mod` W)%nat. intros h w Hh Hw.
  destruct axis as [|[|[|?]]]; [| | |lia]; cbn in Hd; injection Hd as <- <- <-;
    cbn [plane_index]; by apply flat_index_bound.
Qed.

(** A slice inside the volume exists and has the shape H x W x 3. *)
Lemma overlay_slices_defined {A} (zero : A) (L R : ndarray A)
    (nx ny nz axis N H W : nat) (i : nat) :
  shape L = [nx; ny; nz] → length (data L) = (nx * ny * nz)%nat →
  length (data R) = (nx * ny * nz)%nat →
  (axis < 3)%nat → plane_dims nx ny nz axis = (N, H, W) → (i < N)%nat →
  ∃ s, overlay_slices zero L R axis (Z.of_nat i) = Ok s ∧
       shape s = [H; W; 3%nat] ∧ wf s.
Proof.
  intros HsL HL HR Ha Hd Hi. unfold overlay_slices. rewrite HsL, Hd.
  assert ((0 <=? Z.of_nat i) && (Z.of_nat i <? Z.of_nat N) && (axis <? 3)%nat = true) as ->.
  { rewrite !andb_true_iff. repeat split.
    - apply Z.leb_le. lia.
    - apply Z.ltb_lt. lia.
    - by apply Nat.ltb_lt. }
  rewrite Nat2Z.id.
  match goal with |- context [mapM ?f ?l] => set (pixel := f) end.
  assert (∀ p, p ∈ seq 0 (H * W) → ∃ l r, pixel p = Some [l; r; zero]) as Hpix.
  { intros p Hp. apply elem_of_seq in Hp.
    pose proof (plane_index_bound nx ny nz axis i N H W p Ha Hd Hi) as Hb.
    destruct (lookup_lt_is_Some_2 (data L) (plane_index ny nz axis i (p `div` W) (p `mod` W)))
      as [l Hl]; [lia|].
    destruct (lookup_lt_is_Some_2 (data R) (plane_index ny nz axis i (p `div` W) (p `mod` W)))
      as [r Hr]; [lia|].
    exists l, r. subst pixel. cbn beta. rewrite Hl, Hr. reflexivity. }
  destruct (mapM pixel (seq 0 (H * W))) as [px|] eqn:Hm.
  - exists (NdArray [H; W; 3%nat] (concat px)). split; [reflexivity|].
    split; [reflexivity|]. unfold wf. cbn [data shape size_of foldr].
    apply mapM_Some in Hm.
    rewrite (concat_length_uniform 3).
    + rewrite <- (Forall2_length _ _ _ Hm), length_seq. lia.
    + apply Forall_forall. intros l Hl.
      apply list_elem_of_lookup in Hl as [k Hk].
      destruct (Forall2_lookup_r _ _ _ _ _ Hm Hk) as (p & Hp & Hpx).
      destruct (Hpix p) as (a & b & Hab); [by eapply list_elem_of_lookup_2|].
      rewrite Hab in Hpx. injection Hpx as <-. reflexivity.
  - exfalso. assert (is_Some (mapM pixel (seq 0 (H * W)))) as [? Hsome].
    { apply mapM_is_Some. apply Forall_forall. intros p Hp.
      destruct (Hpix p Hp) as (l & r & Hlr). unfold compose. rewrite Hlr. eauto. }
    congruence.
Qed.

Lemma elem_of_range (lo hi i : Z) : i ∈ range lo hi ↔ lo <= i < hi.
Proof.
  unfold range. rewrite list_elem_of_fmap. split.
  - intros (k & -> & Hk). apply elem_of_seq in Hk. lia.
  - intros H. exists (Z.to_nat (i - lo)). split; [lia|]. apply elem_of_seq. lia.
Qed.

Lemma get_channel_last {A} (c C : nat) (a : ndarray A) (sh : list nat) :
  shape a = sh ++ [C] → (c < C)%nat →
  get_channel c a = Ok (NdArray sh (channel C c (data a))).
Proof.
  intros Hs Hc. unfold get_channel. rewrite Hs, last_snoc, removelast_last.
  destruct (Nat.ltb_spec c C); [reflexivity | lia].
Qed.

Lemma select_plane_recognized (sel : string) (axis x y z N H W : nat) :
  recognized sel axis → plane_dims x y z axis = (N, H, W) →
  select_plane (Some sel) x y z = (Z.of_nat N, Some axis) ∧ (axis < 3)%nat.
Proof.
  intros [[-> ->]|[[-> ->]|[-> ->]]] Hd; cbn in Hd; injection Hd as <- <- <-;
    (split; [reflexivity | lia]).
Qed.

(** C7. For a recognized plane selector and an overlay built from volumes of
    shape (x, y, z), the direct animation extracts exactly N slices, N the
    length of the selected axis, and hands them to the GIF writer in ascending
    index order: the frame at position k is the slice at index k. Each slice
    has the shape (H, W, 3), H and W the other two spatial dimensions, and
    holds H * W * 3 entries. *)
Theorem animate_overlap_slices
    (static_img moved_img : ndarray Q) (sel fname : string)
    (overlay : ndarray Z) (value_range : fl * fl)
    (x y z axis N H W : nat) (t : list event) :
  process_image_data static_img moved_img "anim" = Ok (overlay, value_range) →
  shape static_img = [x; y; z] →
  recognized sel axis → plane_dims x y z axis = (N, H, W) →
  ∃ (L R : ndarray fl) (slices : list (ndarray fl)),
    get_channel 0 (stretch value_range (astype_uint8 overlay)) = Ok L ∧
    get_channel 1 (stretch value_range (astype_uint8 overlay)) = Ok R ∧
    animate_overlap static_img moved_img (Some sel) fname t =
      (t ++ [WriteGif (F64 <$> slices) fname 10], Ok ()) ∧
    length slices = N ∧
    ∀ k : nat, (k < N)%nat →
      ∃ s, slices !! k = Some s ∧
           overlay_slices (Fin 0) L R axis (Z.of_nat k) = Ok s ∧
           shape s = [H; W; 3%nat] ∧ wf s.
Proof.
  intros Hp Hs Hrec Hd.
  destruct (process_image_data_shape _ _ _ _ _ Hp) as [Hso Hlen].
  rewrite Hs in Hso, Hlen. cbn [app size_of foldr] in Hso, Hlen.
  destruct (select_plane_recognized sel axis x y z N H W Hrec Hd) as [Hsel Hax].
  set (ov := stretch value_range (astype_uint8 overlay)).
  assert (shape ov = [x; y; z] ++ [3%nat]) as Hsov by exact Hso.
  assert (length (data ov) = (x * y * z * 3)%nat) as Hlov.
  { unfold ov, stretch, astype_uint8, nd_map. cbn [data].
    rewrite !length_fmap. lia. }
  set (L := NdArray [x; y; z] (channel 3 0 (data ov))).
  set (R := NdArray [x; y; z] (channel 3 1 (data ov))).
  assert (get_channel 0 ov = Ok L) as HL by (apply get_channel_last; [exact Hsov | lia]).
  assert (get_channel 1 ov = Ok R) as HR by (apply get_channel_last; [exact Hsov | lia]).
  assert (∀ k : nat, (k < N)%nat →
            ∃ s, overlay_slices (Fin 0) L R axis (Z.of_nat k) = Ok s ∧
                 shape s = [H; W; 3%nat] ∧ wf s) as Hdef.
  { intros k Hk.
    apply (overlay_slices_defined (Fin 0) L R x y z axis N H W k); try done;
      cbn [data L R]; apply channel_length; lia. }
  set (slice_at := λ i : Z,
         match overlay_slices (Fin 0) L R axis i with
         | Ok s => s
         | Raise _ => NdArray [] []
         end).
  exists L, R, (slice_at <$> range 0 (Z.of_nat N)).
  split; [exact HL|]. split; [exact HR|]. split; [|split].
  - unfold animate_overlap, mbind at 1, M_bind at 1, lift at 1.
    rewrite Hp. cbn beta iota.
    unfold mbind at 1, M_bind at 1, lift at 1.
    rewrite Hso. cbn [unpack4]. cbn beta iota.
    fold ov. rewrite Hsel. cbn beta iota.
    unfold mbind at 1, M_bind at 1.
    rewrite (for_each_collect (λ i, F64 (slice_at i))).
    + cbn [app]. unfold call. rewrite <- list_fmap_compose. reflexivity.
    + intros i acc t' Hi. apply elem_of_range in Hi.
      destruct (Hdef (Z.to_nat i)) as (s & Hsl & _); [lia|].
      rewrite Z2Nat.id in Hsl by lia.
      unfold mbind, M_bind, lift, mret, M_ret. rewrite HL, HR. cbn [local].
      unfold slice_at. rewrite Hsl. reflexivity.
  - rewrite length_fmap, range_length. lia.
  - intros k Hk. destruct (Hdef k Hk) as (s & Hsl & Hsh & Hwf).
    exists s. split; [|done].
    rewrite list_lookup_fmap, range_lookup by lia. cbn.
    unfold slice_at. rewrite Z.add_0_l, Hsl. reflexivity.
Qed.

Lemma animate_overlap_slices_witness :
  ∃ slices : list (ndarray fl),
    animate_overlap volume_4_4_6 volume_4_4_6 (Some "axial") "animation.gif" [] =
      ([WriteGif (F64 <$> slices) "animation.gif" 10], Ok ()) ∧
    length slices = 6%nat ∧
    Forall (λ s, shape s = [4; 4; 3]%nat ∧ wf s) slices.
Proof.
  destruct (process_image_data volume_4_4_6 volume_4_4_6 "anim") as [[ov vr]|e] eqn:Hp;
    [|vm_compute in Hp; discriminate].
  destruct (animate_overlap_slices volume_4_4_6 volume_4_4_6 "axial" "animation.gif"
              ov vr 4 4 6 2 6 4 4 [] Hp)
    as (L & R & slices & _ & _ & Hrun & Hlen & Hall);
    [reflexivity | right; right; split; reflexivity | reflexivity |].
  exists slices. split; [exact Hrun|]. split; [exact Hlen|].
  apply Forall_lookup. intros k s Hk.
  destruct (Hall k) as (s' & Hk' & _ & Hsh & Hwf).
  - rewrite <- Hlen. by eapply lookup_lt_Some.
  - assert (s = s') as -> by congruence. by split.
Defined.

(** ** Colour-depth reduction *)

Lemma Qmin_inject_Z (a b : Z) : Qmin (inject_Z a) (inject_Z b) = inject_Z (Z.min a b).
Proof.
  unfold Qmin, GenericMinMax.gmin, Qcompare, inject_Z, Z.min. cbn [Qnum Qden].
  rewrite !Z.mul_1_r. destruct (a ?= b); reflexivity.
Qed.

Lemma Qmax_inject_Z (a b : Z) : Qmax (inject_Z a) (inject_Z b) = inject_Z (Z.max a b).
Proof.
  unfold Qmax, GenericMinMax.gmax, Qcompare, inject_Z, Z.max. cbn [Qnum Qden].
  rewrite !Z.mul_1_r. destruct (a ?= b); reflexivity.
Qed.

Lemma foldl_Qmin_inject_Z (xs : list Z) : ∀ x,
  foldl Qmin (inject_Z x) (inject_Z <$> xs) = inject_Z (foldl Z.min x xs).
Proof.
  induction xs as [|a xs IH]; intros x; [reflexivity|].
  cbn [fmap list_fmap foldl]. rewrite Qmin_inject_Z. apply IH.
Qed.

Lemma foldl_Qmax_inject_Z (xs : list Z) : ∀ x,
  foldl Qmax (inject_Z x) (inject_Z <$> xs) = inject_Z (foldl Z.max x xs).
Proof.
  induction xs as [|a xs IH]; intros x; [reflexivity|].
  cbn [fmap list_fmap foldl]. rewrite Qmax_inject_Z. apply IH.
Qed.

Lemma foldl_Zmin_spec (xs : list Z) : ∀ x,
  foldl Z.min x xs ∈ x :: xs ∧ Forall (λ v, foldl Z.min x xs <= v) (x :: xs).
Proof.
  induction xs as [|a xs IH]; intros x; cbn [foldl].
  - split; [left | constructor; [lia | constructor]].
  - destruct (IH (Z.min x a)) as [Hin Hall].
    apply Forall_cons in Hall as [H1 H2]. split.
    + apply elem_of_cons in Hin as [->|Hin].
      * destruct (Z.min_spec x a) as [[_ ->]|[_ ->]]; [left | right; left].
      * right; by right.
    + repeat constructor; [lia | lia | exact H2].
Qed.

Lemma foldl_Zmax_spec (xs : list Z) : ∀ x,
  foldl Z.max x xs ∈ x :: xs ∧ Forall (λ v, v <= foldl Z.max x xs) (x :: xs).
Proof.
  induction xs as [|a xs IH]; intros x; cbn [foldl].
  - split; [left | constructor; [lia | constructor]].
  - destruct (IH (Z.max x a)) as [Hin Hall].
    apply Forall_cons in Hall as [H1 H2]. split.
    + apply elem_of_cons in Hin as [->|Hin].
      * destruct (Z.max_spec x a) as [[_ ->]|[_ ->]]; [right; left | left].
      * right; by right.
    + repeat constructor; [lia | lia | exact H2].
Qed.

(** The minimum and the maximum of an integer channel. *)
Lemma np_min_max_inject_Z (vals : list Z) :
  vals ≠ [] →
  ∃ lo hi, np_min (inject_Z <$> vals) = Ok (inject_Z lo) ∧
           np_max (inject_Z <$> vals) = Ok (inject_Z hi) ∧
           lo ∈ vals ∧ hi ∈ vals ∧ Forall (λ v, lo <= v <= hi) vals.
Proof.
  destruct vals as [|x xs]; [congruence|]. intros _.
  destruct (foldl_Zmin_spec xs x) as [H1 H2].
  destruct (foldl_Zmax_spec xs x) as [H3 H4].
  exists (foldl Z.min x xs), (foldl Z.max x xs).
  cbn [fmap list_fmap np_min np_max].
  rewrite foldl_Qmin_inject_Z, foldl_Qmax_inject_Z.
  repeat (split; [done|]).
  apply Forall_forall. intros v Hv.
  pose proof (proj1 (Forall_forall _ _) H2 v Hv).
  pose proof (proj1 (Forall_forall _ _) H4 v Hv). cbv beta in *. lia.
Qed.

























(** One channel assignment of [adjust_color_range]. *)
Lemma interp_channel_spec (c C n : nat) (fp : Q * Q) (img : ndarray Z) (sh : list nat) :
  shape img = sh ++ [C] → (c < C)%nat → size_of sh = n →
  length (data img) = (n * C)%nat → (0 < n)%nat →
  interp_channel c fp img =
    Ok (NdArray (sh ++ [C])
          (set_channel C c (requantize fp (channel C c (data img))) (data img))).
Proof.
  intros Hs Hc Hn Hd Hpos. unfold interp_channel.
  rewrite (get_channel_last c C img sh Hs Hc). unfold mbind, result_bind. cbn [data].
  set (ch := channel C c (data img)).
  assert (length ch = n) as Hch by (by apply channel_length).
  assert (ch ≠ []) as Hne by (intros E; rewrite E in Hch; cbn in Hch; lia).
  destruct (np_min_max_inject_Z ch Hne) as (lo & hi & Hmn & Hmx & _).
  rewrite Hmn, Hmx. unfold assign_channel, mbind, result_bind.
  rewrite Hs, last_snoc, removelast_last. cbn [default].
  rewrite (broadcast_to_same sh).
  - unfold requantize. rewrite Hmn, Hmx.
    cbn [nd_map data]. rewrite <- list_fmap_compose. reflexivity.
  - reflexivity.
  - unfold wf. cbn [nd_map shape data]. rewrite !length_fmap. lia.
Qed.






(** ** The rendered animation *)

Lemma omap_lookup_seq {A} (d : list A) : omap (λ i, d !! i) (seq 0 (length d)) = d.
Proof.
  apply list_eq. intros k.
  rewrite omap_lookup_all.
  - destruct (decide (k < length d)%nat) as [Hk|Hk].
    + by rewrite lookup_seq_lt.
    + rewrite lookup_seq_ge by lia. symmetry. apply lookup_ge_None_2. lia.
  - intros i Hi. apply elem_of_seq in Hi. apply lookup_lt_is_Some. lia.
Qed.

Lemma omap_ext_elem {A B} (f g : A → option B) (l : list A) :
  (∀ x, x ∈ l → f x = g x) → omap f l = omap g l.
Proof.
  induction l as [|a l IH]; intros H; [reflexivity|].
  cbn [omap list_omap]. rewrite (H a) by left.
  rewrite IH by (intros; apply H; by right). reflexivity.
Qed.

(** Rolling a third axis of length 3 behind a unit fourth axis moves no entry. *)
Lemma rollaxis_2_4_unit {A} (h w : nat) (d : list A) :
  rollaxis_2_4 (NdArray [h; w; 3; 1]%nat d) = Ok (NdArray [h; w; 1; 3]%nat d).
Proof.
  unfold rollaxis_2_4. cbn [shape data]. do 2 f_equal.
  rewrite <- (omap_lookup_seq d) at 2.
  apply omap_ext_elem. intros i _. f_equal.
  change (1 * 3)%nat with 3%nat. change (3 * 1)%nat with 3%nat.
  pose proof (Nat.div_mod_eq i 3). pose proof (Nat.mod_upper_bound i 3).
  rewrite (Nat.div_small (i `mod` 3) 3) by lia. lia.
Qed.

Section RenderedFrames.

Variable snapshot : list event → ndarray Z.
Hypothesis snapshot_ok : ∀ t, ∃ r, adjust_color_range (snapshot t) = Ok r.

Variables (overlay : ndarray Z) (aff : affine) (value_range : fl * fl).
Variables (L R : ndarray Z) (axis N H W : nat).
Hypothesis HL : get_channel 0 overlay = Ok L.
Hypothesis HR : get_channel 1 overlay = Ok R.
Hypothesis slices_defined : ∀ k : nat, (k < N)%nat →
  ∃ s, overlay_slices 0 L R axis (Z.of_nat k) = Ok s ∧ shape s = [H; W; 3%nat] ∧ wf s.

Lemma render_frame_step (i : Z) (slices : list image) (t : list event) :
  0 <= i < Z.of_nat N →
  ∃ r, render_frame snapshot overlay (Some axis) aff value_range i slices t =
         (t ++ [Slicer (U8 (rendered_slice_at L R axis H W i)) aff value_range;
                Add; ResetCamera; Zoom 1.6; Snapshot],
          Ok (slices ++ [U8 r])).
Proof.
  intros Hi. destruct (slices_defined (Z.to_nat i)) as (s & Hs & Hsh & _); [lia|].
  rewrite Z2Nat.id in Hs by lia.
  set (t' := t ++ [Slicer (U8 (rendered_slice_at L R axis H W i)) aff value_range;
                   Add; ResetCamera; Zoom 1.6]).
  destruct (snapshot_ok t') as [r Hr]. exists r.
  unfold render_frame, mbind, M_bind, lift, call, take_snapshot, mret, M_ret.
  rewrite HL, HR. cbn [local]. rewrite Hs, Hsh.
  unfold astype_uint8, np_round, nd_map. cbn [shape data app].
  rewrite rollaxis_2_4_unit.
  assert (rendered_slice_at L R axis H W i
          = NdArray [H; W; 1; 3]%nat ((λ v, v mod 256) <$> data s)) as <-
    by (unfold rendered_slice_at; by rewrite Hs).
  rewrite <- !app_assoc. cbn [app]. fold t'.
  replace (t ++ [Slicer (U8 (rendered_slice_at L R axis H W i)) aff value_range;
                 Add; ResetCamera; Zoom 1.6])
    with t' by reflexivity.
  rewrite Hr. reflexivity.
Qed.

Lemma render_loop (indices : list Z) :
  (∀ i, i ∈ indices → 0 <= i < Z.of_nat N) →
  ∀ acc t, ∃ T frames,
    for_each indices (render_frame snapshot overlay (Some axis) aff value_range) acc t =
      (t ++ T, Ok (acc ++ frames)) ∧
    length frames = length indices ∧
    sliced T = (λ i, U8 (rendered_slice_at L R axis H W i)) <$> indices.
Proof.
  induction indices as [|i rest IH]; intros Hin acc t.
  - exists [], []. cbn. unfold mret, M_ret. by rewrite !app_nil_r.
  - destruct (render_frame_step i acc t) as [r Hstep]; [apply Hin; left|].
    destruct (IH (λ j Hj, Hin j (list_elem_of_further _ _ _ Hj)) (acc ++ [U8 r])
                (t ++ [Slicer (U8 (rendered_slice_at L R axis H W i)) aff value_range;
                       Add; ResetCamera; Zoom 1.6; Snapshot]))
      as (T & frames & Hrun & Hlen & Hsl).
    exists ([Slicer (U8 (rendered_slice_at L R axis H W i)) aff value_range;
             Add; ResetCamera; Zoom 1.6; Snapshot] ++ T), (U8 r :: frames).
    split; [|split].
    + cbn [for_each]. unfold mbind, M_bind. rewrite Hstep, Hrun.
      rewrite <- !app_assoc. reflexivity.
    + cbn. by rewrite Hlen.
    + unfold sliced in *. rewrite omap_app, Hsl. reflexivity.
Qed.

End RenderedFrames.

(** The rendered animation extracts the same N slices in ascending order: for
    a recognized selector, and a renderer whose snapshots the colour reduction
    accepts, it hands the slicer the slice at index 0, 1, ..., N - 1 in this
    order, each as an (H, W, 1, 3) array, captures one frame per slice and
    passes the N frames to the GIF writer. *)
Theorem animate_overlap_with_renderer_slices
    (snapshot : list event → ndarray Z)
    (static_img moved_img : ndarray Q) (sel fname : string) (aff : affine)
    (overlay : ndarray Z) (value_range : fl * fl)
    (x y z axis N H W : nat) (t : list event) :
  (∀ t', ∃ r, adjust_color_range (snapshot t') = Ok r) →
  process_image_data static_img moved_img "anim" = Ok (overlay, value_range) →
  shape static_img = [x; y; z] →
  recognized sel axis → plane_dims x y z axis = (N, H, W) →
  ∃ (L R : ndarray Z) (T : list event) (frames : list image),
    get_channel 0 overlay = Ok L ∧ get_channel 1 overlay = Ok R ∧
    animate_overlap_with_renderer snapshot static_img moved_img (Some sel) fname aff t =
      (t ++ [NewRenderer; Background 0.5 0.5 0.5] ++ T ++ [WriteGif frames fname 10],
       Ok ()) ∧
    length frames = N ∧
    sliced T = (λ i, U8 (rendered_slice_at L R axis H W i)) <$> range 0 (Z.of_nat N) ∧
    ∀ k : nat, (k < N)%nat →
      ∃ s, overlay_slices 0 L R axis (Z.of_nat k) = Ok s ∧
           shape s = [H; W; 3%nat] ∧ wf s ∧
           rendered_slice_at L R axis H W (Z.of_nat k) =
             NdArray [H; W; 1; 3]%nat ((λ v, v mod 256) <$> data s).
Proof.
  intros Hsnap Hp Hs Hrec Hd.
  destruct (process_image_data_shape _ _ _ _ _ Hp) as [Hso Hlen].
  rewrite Hs in Hso, Hlen. cbn [app size_of foldr] in Hso, Hlen.
  destruct (select_plane_recognized sel axis x y z N H W Hrec Hd) as [Hsel Hax].
  set (L := NdArray [x; y; z] (channel 3 0 (data overlay))).
  set (R := NdArray [x; y; z] (channel 3 1 (data overlay))).
  assert (get_channel 0 overlay = Ok L) as HL
    by (apply (get_channel_last 0 3 overlay [x; y; z]); [exact Hso | lia]).
  assert (get_channel 1 overlay = Ok R) as HR
    by (apply (get_channel_last 1 3 overlay [x; y; z]); [exact Hso | lia]).
  assert (∀ k : nat, (k < N)%nat →
            ∃ s, overlay_slices 0 L R axis (Z.of_nat k) = Ok s ∧
                 shape s = [H; W; 3%nat] ∧ wf s) as Hdef.
  { intros k Hk.
    apply (overlay_slices_defined 0 L R x y z axis N H W k); try done;
      cbn [data L R]; apply channel_length; lia. }
  destruct (render_loop snapshot Hsnap overlay aff value_range L R axis N H W HL HR Hdef
              (range 0 (Z.of_nat N)) (λ i Hi, proj1 (elem_of_range _ _ _) Hi) []
              (t ++ [NewRenderer; Background 0.5 0.5 0.5]))
    as (T & frames & Hrun & Hfl & Hsl).
  exists L, R, T, frames.
  split; [exact HL|]. split; [exact HR|]. split; [|split; [|split]].
  - unfold animate_overlap_with_renderer, mbind at 1, M_bind at 1, lift at 1.
    rewrite Hp. cbn beta iota.
    unfold mbind at 1, M_bind at 1, lift at 1.
    rewrite Hso. cbn [unpack4]. cbn beta iota. rewrite Hsel. cbn beta iota.
    unfold mbind, M_bind, call in *. rewrite <- app_assoc. cbn [app].
    rewrite Hrun. rewrite <- !app_assoc. reflexivity.
  - rewrite Hfl, range_length. lia.
  - exact Hsl.
  - intros k Hk. destruct (Hdef k Hk) as (s & Hsl' & Hsh & Hwf).
    exists s. repeat (split; [done|]).
    unfold rendered_slice_at. by rewrite Hsl'.
Qed.

Lemma animate_overlap_with_renderer_slices_witness :
  ∃ (T : list event) (frames : list image),
    animate_overlap_with_renderer blank_snapshot volume_4_4_6 volume_4_4_6
      (Some "axial") "animation.gif" [] [] =
      ([NewRenderer; Background 0.5 0.5 0.5] ++ T ++ [WriteGif frames "animation.gif" 10],
       Ok ()) ∧
    length frames = 6%nat ∧ length (sliced T) = 6%nat.
Proof.
  destruct (process_image_data volume_4_4_6 volume_4_4_6 "anim") as [[ov vr]|e] eqn:Hp;
    [|vm_compute in Hp; discriminate].
  destruct (animate_overlap_with_renderer_slices blank_snapshot volume_4_4_6 volume_4_4_6
              "axial" "animation.gif" [] ov vr 4 4 6 2 6 4 4 [])
    as (L & R & T & frames & _ & _ & Hrun & Hlen & Hsl & _).
  - intros t'. eexists. vm_compute. reflexivity.
  - exact Hp.
  - reflexivity.
  - right; right; split; reflexivity.
  - reflexivity.
  - exists T, frames. split; [exact Hrun|]. split; [exact Hlen|].
    rewrite Hsl, length_fmap, range_length. reflexivity.
Defined.

(** For six slices or more the solver returns 5 rows and a fifth of the padded
    count as columns: rows * cols is the padded count, the least multiple of 5
    that is at least the slice count. *)
Theorem get_row_cols_from_six (n : Z) :
  6 <= n →
  ∃ cols, get_row_cols n = (5, cols) ∧ n <= 5 * cols < n + 5 ∧ (5 * cols) mod 5 = 0.
Proof.
  intros H. destruct (get_row_cols_large n H) as [Hrc Hm].
  destruct (pad_to_five_spec n) as [H1 H2].
  exists (pad_to_five n / 5). split; [exact Hrc|]. rewrite Hm. by split.
Qed.

Lemma get_row_cols_from_six_witness :
  ∃ cols, get_row_cols 7 = (5, cols) ∧ 7 <= 5 * cols < 7 + 5 ∧ (5 * cols) mod 5 = 0.
Proof. apply (get_row_cols_from_six 7). lia. Defined.

(** ** Further properties of the solver and the mosaic *)

Lemma get_row_cols_at_most_five (n : Z) :
  n <= 5 → pad_to_five n <= 5 ∧ get_row_cols n = (0, 0).
Proof.
  intros H. destruct (pad_to_five_spec n) as [H1 H2].
  assert (pad_to_five n <= 5) as Hp by (Z.div_mod_to_equations; lia).
  split; [exact Hp|]. unfold get_row_cols. rewrite range_nil by lia. reflexivity.
Qed.

(** For five slices or fewer (zero and negative counts included) the padded
    count is at most 5, the candidate range is empty and the solver returns
    no rows and no columns. *)
Theorem get_row_cols_up_to_five (n : Z) :
  n <= 5 → pad_to_five n <= 5 ∧ get_row_cols n = (0, 0).
Proof. apply get_row_cols_at_most_five. Qed.

Lemma get_row_cols_up_to_five_witness : pad_to_five 0 <= 5 ∧ get_row_cols 0 = (0, 0).
Proof. apply (get_row_cols_up_to_five 0). lia. Defined.

Lemma get_row_cols_nonneg (n rows cols : Z) :
  get_row_cols n = (rows, cols) → 0 <= rows ∧ 0 <= cols.
Proof.
  intros H. destruct (Z_le_gt_dec n 5) as [Hle|Hgt].
  - destruct (get_row_cols_at_most_five n Hle) as [_ E]. rewrite E in H.
    injection H as <- <-. lia.
  - destruct (get_row_cols_large n) as [E Hm]; [lia|]. rewrite E in H.
    injection H as <- <-. destruct (pad_to_five_spec n) as [_ Hb]. lia.
Qed.

Lemma create_mosaic_unfold (globals : gmap string pyval)
    (static_img moved_img : ndarray Q) (aff : affine) (fname : string)
    (overlay : ndarray Z) (value_range : fl * fl) (a b num_slices : nat)
    (rows cols : Z) (t : list event) :
  process_image_data static_img moved_img "mosaic" = Ok (overlay, value_range) →
  unpack3 (take 3 (slicer_shape overlay)) = Ok (a, b, num_slices) →
  get_row_cols (Z.of_nat num_slices) = (rows, cols) →
  create_mosaic globals static_img moved_img aff fname t =
    match mosaic_grid globals (Z.of_nat num_slices) 5 cols (range 0 rows) 0
            (t ++ mosaic_setup overlay aff value_range) with
    | (t', Ok _) => (t' ++ mosaic_capture fname, Ok ())
    | (t', Raise e) => (t', Raise e)
    end.
Proof.
  intros Hp Hu Hrc. unfold create_mosaic, mbind, M_bind, lift, call.
  rewrite Hp. cbn beta iota. rewrite Hu. cbn beta iota. rewrite Hrc.
  unfold mosaic_setup. rewrite <- !app_assoc. cbn [app].
  destruct (mosaic_grid _ _ _ _ _ _ _) as [t' [c|e]]; [|reflexivity].
  unfold mosaic_capture. rewrite <- !app_assoc. reflexivity.
Qed.

(** With five axial slices or fewer [create_mosaic] never enters the grid
    loop, whatever the namespace holds: it places no slice, looks up neither
    [X] nor [Y], records the empty scene at 900 x 600 under the given file name
    and returns. *)
Theorem create_mosaic_few_slices_records_empty_scene
    (globals : gmap string pyval)
    (static_img moved_img : ndarray Q) (aff : affine) (fname : string)
    (overlay : ndarray Z) (value_range : fl * fl) (a b num_slices : nat)
    (t : list event) :
  process_image_data static_img moved_img "mosaic" = Ok (overlay, value_range) →
  unpack3 (take 3 (slicer_shape overlay)) = Ok (a, b, num_slices) →
  (num_slices <= 5)%nat →
  create_mosaic globals static_img moved_img aff fname t =
    (t ++ mosaic_setup overlay aff value_range ++ mosaic_capture fname, Ok ()) ∧
  displayed (mosaic_setup overlay aff value_range ++ mosaic_capture fname) = [] ∧
  written (mosaic_setup overlay aff value_range ++ mosaic_capture fname) = [fname].
Proof.
  intros Hp Hu Hn.
  destruct (get_row_cols_at_most_five (Z.of_nat num_slices)) as [_ Hrc]; [lia|].
  split; [|split; reflexivity].
  rewrite (create_mosaic_unfold globals _ _ aff fname overlay value_range a b num_slices 0 0)
    by done.
  rewrite (range_nil 0 0) by lia. cbn [mosaic_grid]. unfold mret, M_ret.
  by rewrite <- app_assoc.
Qed.

Lemma create_mosaic_few_slices_records_empty_scene_witness :
  snd (create_mosaic module_globals two_voxels two_voxels [] "mosaic.png" []) = Ok ().
Proof.
  destruct (process_image_data two_voxels two_voxels "mosaic") as [[ov vr]|e] eqn:Hp;
    [|vm_compute in Hp; discriminate].
  assert (shape ov = [2; 1; 1; 3]%nat) as Hs.
  { vm_compute in Hp. injection Hp as <- _. reflexivity. }
  assert (unpack3 (take 3 (slicer_shape ov)) = Ok (2, 1, 1)%nat) as Hu
    by (unfold slicer_shape; by rewrite Hs).
  destruct (create_mosaic_few_slices_records_empty_scene module_globals two_voxels
              two_voxels [] "mosaic.png" ov vr 2 1 1 [] Hp Hu ltac:(lia)) as [-> _].
  reflexivity.
Defined.

(** In a namespace that binds [X] and [Y] to numbers [create_mosaic] runs to
    its end: after the set-up it places the slices
    0, ..., min(rows * cols, num_slices + 1) - 1 in row-major order, then
    resets the camera, zooms and records the scene once, at 900 x 600, under
    the given file name. *)
Theorem create_mosaic_with_bound_names
    (globals : gmap string pyval) (x y : Q)
    (static_img moved_img : ndarray Q) (aff : affine) (fname : string)
    (overlay : ndarray Z) (value_range : fl * fl) (a b num_slices : nat)
    (rows cols : Z) (t : list event) :
  globals !! "X" = Some (PNum x) → globals !! "Y" = Some (PNum y) →
  process_image_data static_img moved_img "mosaic" = Ok (overlay, value_range) →
  unpack3 (take 3 (slicer_shape overlay)) = Ok (a, b, num_slices) →
  get_row_cols (Z.of_nat num_slices) = (rows, cols) →
  let shown := Z.min (rows * cols) (Z.of_nat num_slices + 1) in
  let placed := concat (place_row_major x y cols <$> range 0 shown) in
  create_mosaic globals static_img moved_img aff fname t =
    (t ++ mosaic_setup overlay aff value_range ++ placed ++ mosaic_capture fname, Ok ()) ∧
  displayed (mosaic_setup overlay aff value_range ++ placed ++ mosaic_capture fname)
    = range 0 shown ∧
  written (mosaic_setup overlay aff value_range ++ placed ++ mosaic_capture fname)
    = [fname].
Proof.
  intros HX HY Hp Hu Hrc shown placed.
  destruct (get_row_cols_nonneg _ _ _ Hrc) as [Hr Hc].
  assert (∀ l : list Z, written (concat (place_row_major x y cols <$> l)) = []) as Hw.
  { induction l as [|k l IH]; [reflexivity|].
    cbn [fmap list_fmap concat]. unfold written in *. rewrite omap_app, IH.
    reflexivity. }
  specialize (Hw (range 0 shown)). fold placed in Hw.
  assert (displayed placed = range 0 shown) as Hd by apply displayed_place_row_major.
  split; [|split].
  - rewrite (create_mosaic_unfold globals _ _ aff fname overlay value_range a b
               num_slices rows cols) by done.
    rewrite (mosaic_grid_spec globals x y HX HY (Z.of_nat num_slices) cols rows
               (Z.to_nat rows)) by lia.
    fold shown placed. by rewrite <- !app_assoc.
  - unfold displayed in *. rewrite !omap_app, Hd. cbn. by rewrite app_nil_r.
  - unfold written in *. rewrite !omap_app, Hw. reflexivity.
Qed.

Lemma create_mosaic_with_bound_names_witness :
  displayed (fst (create_mosaic globals_with_XY ramp7 ramp7 [] "mosaic.png" []))
    = [0; 1; 2; 3; 4; 5; 6; 7] ∧
  snd (create_mosaic globals_with_XY ramp7 ramp7 [] "mosaic.png" []) = Ok ().
Proof.
  destruct (process_image_data ramp7 ramp7 "mosaic") as [[ov vr]|e] eqn:Hp;
    [|vm_compute in Hp; discriminate].
  assert (shape ov = [1; 1; 7; 3]%nat) as Hs.
  { vm_compute in Hp. injection Hp as <- _. reflexivity. }
  assert (unpack3 (take 3 (slicer_shape ov)) = Ok (1, 1, 7)%nat) as Hu
    by (unfold slicer_shape; by rewrite Hs).
  destruct (create_mosaic_with_bound_names globals_with_XY 10%Q 10%Q ramp7 ramp7 []
              "mosaic.png" ov vr 1 1 7 5 2 [] eq_refl eq_refl Hp Hu)
    as (Hrun & Hd & _); [vm_compute; reflexivity|].
  rewrite Hrun. cbn [fst snd app]. split; [|reflexivity]. rewrite Hd. reflexivity.
Defined.

(** ** Further properties of [run] *)

Lemma mosaic_grid_unbound (num_slices rows cols : Z) (t : list event) :
  0 < rows → 0 < cols →
  mosaic_grid module_globals num_slices 5 cols (range 0 rows) 0 t =
    (t ++ [CopyActor; Display 0], Raise (NameError "X")).
Proof.
  intros Hr Hc. rewrite (range_cons 0 rows) by lia. cbn [mosaic_grid].
  unfold mbind, M_bind. rewrite (range_cons 0 cols) by lia. cbn [mosaic_row].
  unfold mbind, M_bind, lift, call. rewrite position_unbound.
  by rewrite <- app_assoc.
Qed.

Section Run.

Variable snapshot : list event → ndarray Z.
Variable nib_load : string → ndarray Q.
Variable load_affine_matrix : string → affine.
Variable globals : gmap string pyval.
Variables (show_mosaic : bool) (anim_slice_type : option string).
Variables (out_dir mosaic_file animate_file : string).

Lemma run_cons (inputs : string * string * string)
    (rest : list (string * string * string)) (t : list event) :
  run snapshot nib_load load_affine_matrix globals (inputs :: rest)
    show_mosaic anim_slice_type out_dir mosaic_file animate_file t =
  match run_body snapshot nib_load load_affine_matrix globals inputs
          show_mosaic anim_slice_type mosaic_file animate_file t with
  | (t', Ok _) =>
      run snapshot nib_load load_affine_matrix globals rest
        show_mosaic anim_slice_type out_dir mosaic_file animate_file t'
  | (t', Raise e) => (t', Raise e)
  end.
Proof. reflexivity. Qed.

Lemma run_stops (pre post : list (string * string * string))
    (bad : string * string * string) (e : exn) : ∀ t t' t'' : list event,
  run snapshot nib_load load_affine_matrix globals pre
    show_mosaic anim_slice_type out_dir mosaic_file animate_file t = (t', Ok ()) →
  run_body snapshot nib_load load_affine_matrix globals bad
    show_mosaic anim_slice_type mosaic_file animate_file t' = (t'', Raise e) →
  run snapshot nib_load load_affine_matrix globals (pre ++ bad :: post)
    show_mosaic anim_slice_type out_dir mosaic_file animate_file t = (t'', Raise e).
Proof.
  induction pre as [|x pre IH]; intros t t' t'' Hpre Hbad.
  - cbn in Hpre. unfold mret, M_ret in Hpre. injection Hpre as <-.
    cbn [app]. rewrite run_cons, Hbad. reflexivity.
  - cbn [app]. rewrite run_cons in *.
    destruct (run_body _ _ _ _ x _ _ _ _ t) as [t1 [[]|e1]]; [|discriminate].
    by apply (IH t1 t' t'').
Qed.

End Run.

(** [run] has no handler around its loop body: once the triples before it
    were processed without error, the first input triple whose processing
    raises ends the whole run with that exception, and no call is made for any
    later triple. *)
Theorem run_stops_at_first_error
    (snapshot : list event → ndarray Z) (nib_load : string → ndarray Q)
    (load_affine_matrix : string → affine) (globals : gmap string pyval)
    (show_mosaic : bool) (anim_slice_type : option string)
    (out_dir mosaic_file animate_file : string)
    (pre post : list (string * string * string)) (bad : string * string * string)
    (e : exn) (t t' t'' : list event) :
  run snapshot nib_load load_affine_matrix globals pre
    show_mosaic anim_slice_type out_dir mosaic_file animate_file t = (t', Ok ()) →
  run_body snapshot nib_load load_affine_matrix globals bad
    show_mosaic anim_slice_type mosaic_file animate_file t' = (t'', Raise e) →
  run snapshot nib_load load_affine_matrix globals (pre ++ bad :: post)
    show_mosaic anim_slice_type out_dir mosaic_file animate_file t = (t'', Raise e).
Proof. apply run_stops. Qed.

Lemma run_stops_at_first_error_witness :
  run blank_snapshot sample_load sample_affine module_globals mixed_batch
    false None "" "mosaic.png" "animation.gif" [] =
  ([LogInfo "No options supplied. Exiting."], Raise dimension_mismatch).
Proof.
  apply (run_stops_at_first_error blank_snapshot sample_load sample_affine module_globals
           false None "" "mosaic.png" "animation.gif"
           [("static.nii", "static.nii", "affine.txt")]
           [("static.nii", "static.nii", "affine.txt")]
           ("static.nii", "image.nii", "affine.txt") dimension_mismatch
           [] [LogInfo "No options supplied. Exiting."]
           [LogInfo "No options supplied. Exiting."]);
    vm_compute; reflexivity.
Defined.

(** When neither output is requested, [run] builds no overlay and writes no
    file: for a batch whose triples all pair volumes with the same number of
    axes it logs the notice once per triple and returns. *)
Theorem run_without_outputs_only_logs
    (snapshot : list event → ndarray Z) (nib_load : string → ndarray Q)
    (load_affine_matrix : string → affine) (globals : gmap string pyval)
    (out_dir mosaic_file animate_file : string)
    (io_it : list (string * string * string)) (t : list event) :
  Forall (λ '(s, m, _), length (shape (nib_load s)) = length (shape (nib_load m))) io_it →
  run snapshot nib_load load_affine_matrix globals io_it
    false None out_dir mosaic_file animate_file t =
    (t ++ replicate (length io_it) (LogInfo "No options supplied. Exiting."), Ok ()) ∧
  written (replicate (length io_it) (LogInfo "No options supplied. Exiting.")) = [].
Proof.
  intros Hall. split.
  - revert t. induction Hall as [|[[s m] a] rest Hx _ IH]; intros t.
    + cbn. unfold mret, M_ret. by rewrite app_nil_r.
    + rewrite run_cons.
      assert (run_body snapshot nib_load load_affine_matrix globals (s, m, a)
                false None mosaic_file animate_file t =
              (t ++ [LogInfo "No options supplied. Exiting."], Ok ())) as ->.
      { unfold run_body, mbind, M_bind, lift, check_dimensions.
        rewrite Hx, Nat.eqb_refl. reflexivity. }
      rewrite IH. cbn [length replicate]. by rewrite <- app_assoc.
  - induction (length io_it) as [|n IH]; [reflexivity | exact IH].
Qed.

Lemma run_without_outputs_only_logs_witness :
  run blank_snapshot uniform_load sample_affine module_globals mixed_batch
    false None "" "mosaic.png" "animation.gif" [] =
    ([] ++ replicate (length mixed_batch) (LogInfo "No options supplied. Exiting."), Ok ()).
Proof.
  apply (run_without_outputs_only_logs blank_snapshot uniform_load sample_affine
           module_globals "" "mosaic.png" "animation.gif" mixed_batch []).
  repeat constructor.
Defined.

(** With the mosaic requested and six axial slices or more, [run] in the
    module's own namespace ends in the NameError of the grid loop: it writes no
    file, and an animation requested in the same call is never started. *)
Theorem run_mosaic_error_skips_animation
    (snapshot : list event → ndarray Z) (nib_load : string → ndarray Q)
    (load_affine_matrix : string → affine)
    (static_file moving_file affine_file : string) (anim_slice_type : option string)
    (mosaic_file animate_file : string)
    (overlay : ndarray Z) (value_range : fl * fl) (a b num_slices : nat)
    (t : list event) :
  length (shape (nib_load static_file)) = length (shape (nib_load moving_file)) →
  process_image_data (nib_load static_file) (nib_load moving_file) "mosaic"
    = Ok (overlay, value_range) →
  unpack3 (take 3 (slicer_shape overlay)) = Ok (a, b, num_slices) →
  (6 <= num_slices)%nat →
  run_body snapshot nib_load load_affine_matrix module_globals
    (static_file, moving_file, affine_file) true anim_slice_type
    mosaic_file animate_file t =
    (t ++ mosaic_setup overlay (load_affine_matrix affine_file) value_range
       ++ [CopyActor; Display 0],
     Raise (NameError "X")) ∧
  written (mosaic_setup overlay (load_affine_matrix affine_file) value_range
             ++ [CopyActor; Display 0]) = [].
Proof.
  intros Hdim Hp Hu Hn. split; [|reflexivity].
  destruct (get_row_cols_large (Z.of_nat num_slices)) as [Hrc Hm]; [lia|].
  destruct (pad_to_five_spec (Z.of_nat num_slices)) as [_ Hb].
  unfold run_body, mbind at 1, M_bind at 1, lift at 1, check_dimensions.
  rewrite Hdim, Nat.eqb_refl. cbn [negb].
  unfold mbind at 1, M_bind at 1.
  rewrite (create_mosaic_unfold module_globals _ _ _ mosaic_file overlay value_range
             a b num_slices 5 (pad_to_five (Z.of_nat num_slices) / 5)) by done.
  rewrite mosaic_grid_unbound by lia.
  by rewrite <- app_assoc.
Qed.

Lemma run_mosaic_error_skips_animation_witness :
  snd (run_body blank_snapshot (λ _, ramp7) sample_affine module_globals
         ("static.nii", "moving.nii", "affine.txt") true (Some "axial")
         "mosaic.png" "animation.gif" []) = Raise (NameError "X").
Proof.
  destruct (process_image_data ramp7 ramp7 "mosaic") as [[ov vr]|e] eqn:Hp;
    [|vm_compute in Hp; discriminate].
  assert (shape ov = [1; 1; 7; 3]%nat) as Hs.
  { vm_compute in Hp. injection Hp as <- _. reflexivity. }
  assert (unpack3 (take 3 (slicer_shape ov)) = Ok (1, 1, 7)%nat) as Hu
    by (unfold slicer_shape; by rewrite Hs).
  destruct (run_mosaic_error_skips_animation blank_snapshot (λ _, ramp7) sample_affine
              "static.nii" "moving.nii" "affine.txt" (Some "axial")
              "mosaic.png" "animation.gif" ov vr 1 1 7 [] eq_refl Hp Hu ltac:(lia))
    as [-> _].
  reflexivity.
Defined.

(** ** Further properties of [process_image_data] *)

Lemma process_image_data_same_shape (static_img moved_img : ndarray Q)
    (type_vis : string) (mn mx mn' mx' : Q) :
  wf static_img → wf moved_img → shape static_img = shape moved_img →
  np_min (data static_img) = Ok mn → np_max (data static_img) = Ok mx →
  np_min (data moved_img) = Ok mn' → np_max (data moved_img) = Ok mx' →
  process_image_data static_img moved_img type_vis =
    let overlay := overlay_of static_img moved_img mn mx mn' mx' in
    if String.eqb type_vis "mosaic"
    then Ok (overlay, value_range_over (positive_entries overlay))
    else if String.eqb type_vis "anim"
    then Ok (overlay, value_range_over (positive_entries overlay))
    else Raise (UnboundLocalError "value_range").
Proof.
  intros Hs Hm Hsh Hmn Hmx Hmn' Hmx'.
  unfold process_image_data.
  rewrite (rescale_unfold _ _ _ Hmn Hmx), (rescale_unfold _ _ _ Hmn' Hmx').
  unfold assign_channel, mbind, result_bind.
  cbn [shape nd_map zeros data]. rewrite removelast_last.
  rewrite (broadcast_to_same (shape static_img))
    by (try reflexivity; by do 2 apply nd_map_wf).
  cbn [shape data]. rewrite removelast_last.
  rewrite (broadcast_to_same (shape static_img))
    by (try (symmetry; exact Hsh); by do 2 apply nd_map_wf).
  reflexivity.
Qed.

(** For any mode tag other than "mosaic" and "anim" no branch binds
    [value_range]: on volumes that are otherwise fine (well-formed, one shape,
    not empty) [process_image_data] builds the overlay and then raises
    UnboundLocalError at its return. *)
Theorem process_image_data_unknown_mode (static_img moved_img : ndarray Q)
    (type_vis : string) :
  wf static_img → wf moved_img → shape static_img = shape moved_img →
  data static_img ≠ [] → type_vis ≠ "mosaic" → type_vis ≠ "anim" →
  process_image_data static_img moved_img type_vis
    = Raise (UnboundLocalError "value_range").
Proof.
  intros Hs Hm Hsh Hne H1 H2.
  assert (data moved_img ≠ []) as Hne'.
  { intros E. apply Hne. apply length_zero_iff_nil.
    unfold wf in *. rewrite Hs, Hsh, <- Hm, E. reflexivity. }
  destruct (np_min_max_defined _ Hne) as (mn & mx & Hmn & Hmx).
  destruct (np_min_max_defined _ Hne') as (mn' & mx' & Hmn' & Hmx').
  rewrite (process_image_data_same_shape _ _ _ mn mx mn' mx') by done.
  cbv zeta.
  destruct (String.eqb_spec type_vis "mosaic"); [contradiction|].
  destruct (String.eqb_spec type_vis "anim"); [contradiction|].
  reflexivity.
Qed.

Lemma process_image_data_unknown_mode_witness :
  process_image_data two_voxels two_voxels "gif" = Raise (UnboundLocalError "value_range").
Proof.
  apply (process_image_data_unknown_mode two_voxels two_voxels "gif");
    [reflexivity | reflexivity | reflexivity | discriminate | discriminate | discriminate].
Defined.

(** An empty volume, static or moving, makes the first [min()] over it raise
    the zero-size ValueError: [process_image_data] raises it for every mode
    tag, and the mosaic and both animations raise it before any call to the
    renderer or the GIF writer. *)
Theorem empty_volume_raises_before_any_call
    (snapshot : list event → ndarray Z) (globals : gmap string pyval)
    (static_img moved_img : ndarray Q) (type_vis : string)
    (sli_type : option string) (fname : string) (aff : affine) (t : list event) :
  data static_img = [] ∨ data moved_img = [] →
  process_image_data static_img moved_img type_vis = Raise (zero_size "minimum") ∧
  create_mosaic globals static_img moved_img aff fname t
    = (t, Raise (zero_size "minimum")) ∧
  animate_overlap static_img moved_img sli_type fname t
    = (t, Raise (zero_size "minimum")) ∧
  animate_overlap_with_renderer snapshot static_img moved_img sli_type fname aff t
    = (t, Raise (zero_size "minimum")).
Proof.
  intros Hempty.
  assert (∀ tv, process_image_data static_img moved_img tv = Raise (zero_size "minimum"))
    as Hp.
  { intros tv. unfold process_image_data, rescale, mbind, result_bind.
    destruct (data static_img) as [|x xs] eqn:Es; [reflexivity|].
    destruct Hempty as [?|Em]; [discriminate|]. rewrite Em. reflexivity. }
  split; [apply Hp|].
  unfold create_mosaic, animate_overlap, animate_overlap_with_renderer,
    mbind, M_bind, lift.
  rewrite !Hp. done.
Qed.

Lemma empty_volume_raises_before_any_call_witness :
  create_mosaic module_globals empty_volume empty_volume [] "mosaic.png" []
    = ([], Raise (zero_size "minimum")).
Proof.
  apply (empty_volume_raises_before_any_call blank_snapshot module_globals
           empty_volume empty_volume "mosaic" None "mosaic.png" [] []).
  left. reflexivity.
Defined.

Lemma size_of_pos (sh : list nat) : size_of sh ≠ 0%nat → Forall (λ n, 0 < n)%nat sh.
Proof.
  unfold size_of. induction sh as [|a sh IH]; intros H; constructor.
  - cbn in H. destruct a; lia.
  - apply IH. cbn in H. intros E. rewrite E in H. lia.
Qed.

Lemma align_same_length (tgt src : list nat) :
  length tgt = length src → align tgt src = src.
Proof.
  intros H. unfold align. rewrite H, Nat.leb_refl, Nat.sub_diag. reflexivity.
Qed.

(** An axis of the source that is neither the target's nor 1 stops the
    broadcast. *)
Lemma broadcast_axes_mismatch {A} (tgt : list nat) : ∀ (src : list nat) (d : list A) (i s t : nat),
  Forall (λ n, 0 < n)%nat src →
  src !! i = Some s → tgt !! i = Some t → s ≠ t → s ≠ 1%nat →
  broadcast_axes tgt src d = None.
Proof.
  induction tgt as [|t0 tgt IH]; intros src d i s t Hpos Hs Ht Hne H1;
    [discriminate|].
  destruct src as [|s0 src]; [discriminate|].
  apply Forall_cons in Hpos as [Hs0 Hpos].
  cbn [broadcast_axes]. destruct i as [|i].
  - injection Hs as ->. injection Ht as ->.
    destruct (Nat.eqb_spec s t); [contradiction|].
    destruct (Nat.eqb_spec s 1); [contradiction|]. reflexivity.
  - cbn in Hs, Ht.
    destruct (s0 =? t0)%nat.
    + destruct s0 as [|s0]; [lia|]. cbn [chunks].
      cbn [mapM]. rewrite (IH src _ i s t) by done. reflexivity.
    + destruct (s0 =? 1)%nat; [|reflexivity].
      rewrite (IH src _ i s t) by done. reflexivity.
Qed.

(** Volumes with the same number of axes pass the dimension check; when an
    axis of the moving volume is neither the static volume's nor 1, the
    assignment of the moving volume into the overlay cannot broadcast, and
    [process_image_data] raises that ValueError for every mode tag. *)
Theorem process_image_data_shape_mismatch (static_img moved_img : ndarray Q)
    (type_vis : string) (i a b : nat) :
  wf static_img → wf moved_img → data static_img ≠ [] → data moved_img ≠ [] →
  length (shape static_img) = length (shape moved_img) →
  shape static_img !! i = Some a → shape moved_img !! i = Some b →
  b ≠ a → b ≠ 1%nat →
  check_dimensions static_img moved_img = Ok () ∧
  process_image_data static_img moved_img type_vis = Raise broadcast_error.
Proof.
  intros Hs Hm Hne Hne' Hlen Ha Hb Hab Hb1. split.
  - unfold check_dimensions. by rewrite Hlen, Nat.eqb_refl.
  - destruct (np_min_max_defined _ Hne) as (mn & mx & Hmn & Hmx).
    destruct (np_min_max_defined _ Hne') as (mn' & mx' & Hmn' & Hmx').
    unfold process_image_data.
    rewrite (rescale_unfold _ _ _ Hmn Hmx), (rescale_unfold _ _ _ Hmn' Hmx').
    unfold assign_channel, mbind, result_bind.
    cbn [shape nd_map zeros data]. rewrite removelast_last.
    rewrite (broadcast_to_same (shape static_img))
      by (try reflexivity; by do 2 apply nd_map_wf).
    cbn [shape data]. rewrite removelast_last.
    unfold broadcast_to. cbn [shape data].
    rewrite align_same_length by exact Hlen.
    rewrite (broadcast_axes_mismatch (shape static_img) (shape moved_img) _ i b a);
      try done.
    apply size_of_pos. unfold wf in Hm. rewrite <- Hm.
    intros E. apply Hne'. by apply length_zero_iff_nil.
Qed.

Lemma process_image_data_shape_mismatch_witness :
  check_dimensions volume_2_1_3 volume_2_1_2 = Ok () ∧
  process_image_data volume_2_1_3 volume_2_1_2 "anim" = Raise broadcast_error.
Proof.
  apply (process_image_data_shape_mismatch volume_2_1_3 volume_2_1_2 "anim" 2 3 2);
    try reflexivity; try discriminate; lia.
Defined.

Lemma chunks_length {A} (n k : nat) (d : list A) : length (chunks n k d) = n.
Proof. revert d. induction n as [|n IH]; intros d; cbn; [reflexivity | by rewrite IH]. Qed.

Lemma mapM_all {A B} (f : A → option B) (P : B → Prop) (l : list A) :
  Forall (λ x, ∃ y, f x = Some y ∧ P y) l →
  ∃ k, mapM f l = Some k ∧ Forall P k ∧ length k = length l.
Proof.
  induction 1 as [|x l (y & Hy & HP) _ (k & Hk & HPk & Hlen)].
  - exists []. by repeat split.
  - exists (y :: k). cbn [mapM]. rewrite Hy, Hk. cbn.
    split; [reflexivity|]. split; [by constructor | by rewrite Hlen].
Qed.

(** A source whose axes are each the target's or 1 broadcasts, to as many
    entries as the target shape holds. *)
Lemma broadcast_axes_compatible {A} (tgt src : list nat) :
  Forall2 (λ t s, s = t ∨ s = 1%nat) tgt src →
  ∀ d : list A, length d = size_of src →
  ∃ r, broadcast_axes tgt src d = Some r ∧ length r = size_of tgt.
Proof.
  induction 1 as [|t s tgt src Hts _ IH]; intros d Hd.
  - exists d. split; [reflexivity | exact Hd].
  - cbn [broadcast_axes].
    change (size_of (s :: src)) with (s * size_of src)%nat in Hd.
    change (size_of (t :: tgt)) with (t * size_of tgt)%nat.
    destruct (Nat.eqb_spec s t) as [->|Hne].
    + destruct (mapM_all (broadcast_axes tgt src) (λ r, length r = size_of tgt)
                  (chunks t (size_of src) d)) as (k & Hk & Hlens & Hlen).
      { eapply Forall_impl; [apply (chunks_lengths t (size_of src) d Hd)|].
        intros ch Hch. cbn. by apply IH. }
      rewrite Hk. cbn. eexists. split; [reflexivity|].
      rewrite (concat_length_uniform (size_of tgt)) by exact Hlens.
      by rewrite Hlen, chunks_length.
    + destruct Hts as [Heq | ->]; [contradiction|]. cbn [Nat.eqb].
      destruct (IH d) as (r & Hr & Hlen); [lia|].
      rewrite Hr. cbn. eexists. split; [reflexivity|].
      rewrite (concat_length_uniform (length r)).
      * by rewrite length_replicate, Hlen.
      * by apply Forall_replicate.
Qed.

(** The shapes need not be equal: a moving volume whose axes are each the
    static volume's or of length 1 is accepted. Its rescaled values are
    broadcast to the static shape and become channel 1 of an overlay of the
    static shape. *)
Theorem process_image_data_broadcasts_unit_axes (static_img moved_img : ndarray Q)
    (type_vis : string) :
  wf static_img → wf moved_img → data static_img ≠ [] → data moved_img ≠ [] →
  Forall2 (λ a b, b = a ∨ b = 1%nat) (shape static_img) (shape moved_img) →
  type_vis = "mosaic" ∨ type_vis = "anim" →
  ∃ overlay value_range moved c1,
    process_image_data static_img moved_img type_vis = Ok (overlay, value_range) ∧
    shape overlay = shape static_img ++ [3%nat] ∧
    rescale moved_img = Ok moved ∧
    broadcast_to (shape static_img) (nd_map cast_uint8 moved) = Ok c1 ∧
    length c1 = size_of (shape static_img) ∧
    get_channel 1 overlay = Ok (NdArray (shape static_img) c1).
Proof.
  intros Hs Hm Hne Hne' Hcompat Htv.
  destruct (np_min_max_defined _ Hne) as (mn & mx & Hmn & Hmx).
  destruct (np_min_max_defined _ Hne') as (mn' & mx' & Hmn' & Hmx').
  set (moved := nd_map (rescale_entry mn' mx') moved_img).
  destruct (broadcast_axes_compatible (shape static_img) (shape moved_img) Hcompat
              (data (nd_map cast_uint8 moved))) as (c1 & Hc1 & Hlen).
  { cbn. rewrite !length_fmap. exact Hm. }
  assert (broadcast_to (shape static_img) (nd_map cast_uint8 moved) = Ok c1) as Hb.
  { unfold broadcast_to.
    change (shape (nd_map cast_uint8 moved)) with (shape moved_img).
    rewrite align_same_length by (by eapply Forall2_length).
    by rewrite Hc1. }
  set (d0 := set_channel 3 0 (cast_uint8 <$> (rescale_entry mn mx <$> data static_img))
               (replicate (size_of (shape static_img ++ [3%nat])) 0)).
  assert (process_image_data static_img moved_img type_vis =
          Ok (NdArray (shape static_img ++ [3%nat]) (set_channel 3 1 c1 d0),
              value_range_over
                (positive_entries
                   (NdArray (shape static_img ++ [3%nat]) (set_channel 3 1 c1 d0)))))
    as Hp.
  { unfold process_image_data.
    rewrite (rescale_unfold _ _ _ Hmn Hmx), (rescale_unfold _ _ _ Hmn' Hmx').
    unfold assign_channel, mbind, result_bind.
    cbn [shape nd_map zeros data]. rewrite removelast_last.
    rewrite (broadcast_to_same (shape static_img))
      by (try reflexivity; by do 2 apply nd_map_wf).
    cbn [shape data]. rewrite removelast_last.
    fold moved. change (NdArray (shape moved_img) (cast_uint8 <$> data moved))
      with (nd_map cast_uint8 moved).
    rewrite Hb. fold d0.
    destruct Htv as [-> | ->]; reflexivity. }
  exists (NdArray (shape static_img ++ [3%nat]) (set_channel 3 1 c1 d0)),
    (value_range_over
       (positive_entries (NdArray (shape static_img ++ [3%nat]) (set_channel 3 1 c1 d0)))),
    moved, c1.
  split; [exact Hp|]. split; [reflexivity|].
  split; [by apply rescale_unfold|]. split; [exact Hb|]. split; [exact Hlen|].
  rewrite (get_channel_last 1 3 _ (shape static_img)) by (reflexivity || lia).
  cbn [data]. f_equal. f_equal.
  apply (channel_set_channel_eq 3 1 (size_of (shape static_img))); [lia | | exact Hlen].
  unfold d0. by rewrite set_channel_length, length_replicate, size_of_snoc.
Qed.

Lemma process_image_data_broadcasts_unit_axes_witness :
  ∃ overlay value_range,
    process_image_data volume_2_1_2 column_2_1_1 "mosaic" = Ok (overlay, value_range) ∧
    get_channel 1 overlay = Ok (NdArray [2; 1; 2]%nat [0; 0; 255; 255]).
Proof.
  assert (Forall2 (λ a b : nat, b = a ∨ b = 1%nat) (shape volume_2_1_2) (shape column_2_1_1))
    as Hcompat by (repeat constructor; auto).
  destruct (process_image_data_broadcasts_unit_axes volume_2_1_2 column_2_1_1 "mosaic"
              eq_refl eq_refl ltac:(discriminate) ltac:(discriminate) Hcompat
              (or_introl eq_refl))
    as (ov & vr & moved & c1 & Hp & _ & Hr & Hb & _ & Hc).
  exists ov, vr. split; [exact Hp|]. rewrite Hc.
  vm_compute in Hr. injection Hr as <-. vm_compute in Hb. injection Hb as <-.
  reflexivity.
Defined.

(** ** The two channels of the overlay *)





(** ** When the value range is a window, and when it is NaN *)



Lemma set_channel_Forall {A} (P : A → Prop) (C c : nat) (vals d : list A) :
  Forall P vals → Forall P d → Forall P (set_channel C c vals d).
Proof.
  intros Hv Hd. apply Forall_lookup. intros i y. rewrite set_channel_lookup.
  destruct (d !! i) as [x|] eqn:Hx; [|discriminate]. cbn. intros [= <-].
  pose proof (Forall_lookup_1 _ _ _ _ Hd Hx) as HPx.
  destruct (_ =? _)%nat; [|exact HPx].
  destruct (vals !! _) as [v|] eqn:Hvi; [|exact HPx].
  exact (Forall_lookup_1 _ _ _ _ Hv Hvi).
Qed.










(** When both volumes are constant, [process_image_data] raises nothing: every
    rescaled value is NaN and is stored as 0, the overlay is zero everywhere,
    no entry is positive, and mean, standard deviation and both bounds of the
    value range are NaN. *)
Theorem constant_volumes_give_a_nan_value_range (static_img moved_img : ndarray Q)
    (type_vis : string) (mn mx mn' mx' : Q) :
  wf static_img → wf moved_img → shape static_img = shape moved_img →
  np_min (data static_img) = Ok mn → np_max (data static_img) = Ok mx →
  np_min (data moved_img) = Ok mn' → np_max (data moved_img) = Ok mx' →
  type_vis = "mosaic" ∨ type_vis = "anim" →
  (mn == mx)%Q → (mn' == mx')%Q →
  ∃ overlay,
    process_image_data static_img moved_img type_vis = Ok (overlay, (NaN, NaN)) ∧
    Forall (λ v, v = 0) (data overlay) ∧
    positive_entries overlay = [].
Proof.
  intros Hs Hm Hsh Hmn Hmx Hmn' Hmx' Htv He He'.
  set (overlay := overlay_of static_img moved_img mn mx mn' mx').
  assert (process_image_data static_img moved_img type_vis =
          Ok (overlay, value_range_over (positive_entries overlay))) as Hp.
  { rewrite (process_image_data_same_shape _ _ _ mn mx mn' mx') by done.
    cbv zeta. destruct Htv as [-> | ->]; reflexivity. }
  assert (∀ xs lo hi, np_min xs = Ok lo → np_max xs = Ok hi → (lo == hi)%Q →
            Forall (λ v, v = 0) (cast_uint8 <$> (rescale_entry lo hi <$> xs))) as Hzero.
  { intros xs lo hi Hlo Hhi E. rewrite <- list_fmap_compose.
    apply Forall_fmap, Forall_forall. intros x Hx. unfold compose. cbv beta.
    rewrite rescale_entry_nan; [reflexivity | | | exact E].
    - exact (proj1 (Forall_forall _ _) (np_min_spec _ _ Hlo) x Hx).
    - exact (proj1 (Forall_forall _ _) (np_max_spec _ _ Hhi) x Hx). }
  assert (Forall (λ v, v = 0) (data overlay)) as Hall.
  { unfold overlay, overlay_of. cbn [data].
    repeat apply set_channel_Forall; try (by apply Hzero).
    by apply Forall_replicate. }
  assert (positive_entries overlay = []) as Hpos.
  { unfold positive_entries.
    induction Hall as [|v l -> _ IH]; [reflexivity|].
    rewrite filter_cons_False by lia. exact IH. }
  exists overlay. rewrite Hp, Hpos. done.
Qed.

Lemma constant_volumes_give_a_nan_value_range_witness :
  ∃ overlay,
    process_image_data constant_volume constant_volume "anim" = Ok (overlay, (NaN, NaN)) ∧
    Forall (λ v, v = 0) (data overlay) ∧
    positive_entries overlay = [].
Proof.
  apply (constant_volumes_give_a_nan_value_range constant_volume constant_volume "anim"
           7 7 7 7 eq_refl eq_refl eq_refl eq_refl eq_refl eq_refl eq_refl
           (or_intror eq_refl)); reflexivity.
Defined.

(** ** What [adjust_color_range] does to each channel *)





(** A raster whose last axis has length 1 is rejected: the assignment to
    channel 0 goes through, and the read of channel 1 raises IndexError. An
    empty raster is rejected by the first [min()] with the zero-size
    ValueError. *)
Theorem adjust_color_range_rejects_one_channel_and_empty (img : ndarray Z)
    (sh : list nat) (C : nat) :
  shape img = sh ++ [C] → wf img → (1 <= C)%nat →
  (data img = [] → adjust_color_range img = Raise (zero_size "minimum")) ∧
  (data img ≠ [] → C = 1%nat → adjust_color_range img = Raise IndexError).
Proof.
  intros Hs Hwf HC. split.
  - intros He. unfold adjust_color_range, interp_channel, mbind, result_bind.
    rewrite (get_channel_last 0 C img sh Hs) by lia. cbn [data]. rewrite He.
    assert (channel C 0 (@nil Z) = []) as ->
      by (unfold channel; cbn [length]; by rewrite Nat.Div0.div_0_l).
    reflexivity.
  - intros Hne ->.
    set (n := size_of sh).
    assert (length (data img) = (n * 1)%nat) as Hd.
    { unfold wf in Hwf. rewrite Hwf, Hs. apply size_of_snoc. }
    assert (0 < n)%nat as Hpos.
    { destruct n; [|lia]. destruct (data img); [congruence | discriminate]. }
    unfold adjust_color_range, mbind, result_bind.
    rewrite (interp_channel_spec 0 1 n _ img sh) by (done || lia).
    unfold interp_channel, get_channel, mbind, result_bind. cbn [shape].
    rewrite last_snoc. reflexivity.
Qed.

Lemma adjust_color_range_rejects_one_channel_and_empty_witness :
  adjust_color_range gray_raster = Raise IndexError.
Proof.
  destruct (adjust_color_range_rejects_one_channel_and_empty gray_raster [2; 2]%nat 1
              eq_refl eq_refl ltac:(lia)) as [_ H].
  apply H; [discriminate | reflexivity].
Defined.

(** ** Volumes that are not three-dimensional *)

Lemma unpack4_wrong_length {A} (l : list A) :
  length l ≠ 4%nat → ∃ msg, unpack4 l = Raise (ValueError msg).
Proof.
  destruct l as [|a [|b [|c [|d [|e l]]]]]; cbn; intros H; try (eexists; reflexivity).
  lia.
Qed.

(** [check_dimensions] lets pass any two volumes with the same number of axes,
    three or not; both animations then unpack the overlay's shape into four
    names. For volumes of one shape that is not three-dimensional they raise
    ValueError there, before any call to the renderer or the GIF writer. *)
Theorem animations_need_three_axes
    (snapshot : list event → ndarray Z) (static_img moved_img : ndarray Q)
    (sli_type : option string) (fname : string) (aff : affine) (t : list event) :
  wf static_img → wf moved_img → shape static_img = shape moved_img →
  data static_img ≠ [] → length (shape static_img) ≠ 3%nat →
  check_dimensions static_img moved_img = Ok () ∧
  ∃ msg,
    animate_overlap static_img moved_img sli_type fname t = (t, Raise (ValueError msg)) ∧
    animate_overlap_with_renderer snapshot static_img moved_img sli_type fname aff t
      = (t, Raise (ValueError msg)).
Proof.
  intros Hs Hm Hsh Hne Hdim. split.
  { unfold check_dimensions. rewrite Hsh, Nat.eqb_refl. reflexivity. }
  destruct (process_image_data_defined static_img moved_img "anim" Hs Hm Hsh Hne)
    as (ov & vr & Hp); [by right|].
  destruct (process_image_data_shape _ _ _ _ _ Hp) as [Hshape _].
  destruct (unpack4_wrong_length (shape ov)) as [msg Hu].
  { rewrite Hshape, length_app. cbn. lia. }
  exists msg. split.
  - unfold animate_overlap, mbind, M_bind, lift. rewrite Hp. cbn beta iota.
    rewrite Hu. reflexivity.
  - unfold animate_overlap_with_renderer, mbind, M_bind, lift. rewrite Hp. cbn beta iota.
    rewrite Hu. reflexivity.
Qed.

Lemma animations_need_three_axes_witness :
  ∃ msg,
    animate_overlap_with_renderer blank_snapshot image_10_10 image_10_10 (Some "axial")
      "animation.gif" [] [] = ([], Raise (ValueError msg)).
Proof.
  destruct (animations_need_three_axes blank_snapshot image_10_10 image_10_10
              (Some "axial") "animation.gif" [] [] eq_refl eq_refl eq_refl
              ltac:(discriminate) ltac:(discriminate)) as (_ & msg & _ & H).
  exists msg. exact H.
Defined.
